(** * Supply-chain import pipeline: a shallow embedding of
    [scripts/import_data.py] and the properties of its loaders.

    The pandas frame is a list of records under typed columns; a row is
    a finite map from column names to Python scalars, as the columns
    store them or, from [iterrows], in the common dtype of the columns.
    Group keys are told apart as a hash table does, numbers by value.
    The PostgreSQL connection is an abstract state machine, given by what
    [execute] and [commit] answer; Python exceptions are an error monad.  Floats are binary64 values, and
    [float(str)], [int(str)], [str(float)] and [str.strip] are written out
    for the latin-1 texts the file is read as.  Each pass returns, next to
    its result, a journal: for every row, in order, the lookups made in the
    key maps, the statements sent with their outcome, and the commits. *)

From Stdlib Require Import ZArith String Ascii List Lia.
From Stdlib Require Import Floats.SpecFloat.
From stdpp Require Import gmap strings list fin_maps sorting pretty.

Local Open Scope string_scope.
Local Open Scope list_scope.
Local Open Scope Z_scope.
Local Set Warnings "-clear-no-such-hyp".

(** ** Python values *)

(** A Python [float] is an IEEE binary64 value: [spec_float] read at
    precision 53 and maximal exponent 1024. *)
Abbreviation pyfloat := spec_float.

(** The scalars a cell of the frame can hold.  [SFloat S754_nan] is the
    absence marker pandas writes for an empty CSV field. *)
Inductive scalar :=
  | SNone
  | SFloat (f : pyfloat)
  | SInt (z : Z)
  | SStr (s : string).

Inductive exn :=
  | ValueError
  | TypeError
  | OverflowError
  | KeyError
  | ZeroDivisionError
  | DbError.            (* psycopg2.Error *)

(** Result of a computation that may raise. *)
Inductive res (A : Type) :=
  | Ok (a : A)
  | Raise (e : exn).
Arguments Ok {A} a.
Arguments Raise {A} e.

Definition rbind {A B} (r : res A) (k : A -> res B) : res B :=
  match r with
  | Ok a => k a
  | Raise e => Raise e
  end.

Notation "x <-- r ;; k" := (rbind r (fun x => k))
  (at level 100, r at next level, right associativity).

Global Instance spec_float_eq_dec : EqDecision spec_float.
Proof. solve_decision. Defined.
Global Instance scalar_eq_dec : EqDecision scalar.
Proof. solve_decision. Defined.
Global Instance exn_eq_dec : EqDecision exn.
Proof. solve_decision. Defined.

(** ** Strings *)

(** [str.isspace] on the code points of a latin-1 decoded file. *)
Definition py_isspace (a : ascii) : bool :=
  let n := N_of_ascii a in
  ((9 <=? n) && (n <=? 13) || (28 <=? n) && (n <=? 32)
   || (n =? 133) || (n =? 160))%N.

Fixpoint lstrip (space : ascii -> bool) (s : string) : string :=
  match s with
  | String a s' => if space a then lstrip space s' else s
  | EmptyString => EmptyString
  end.

(** Trailing blanks go: a blank is dropped when nothing is left after it. *)
Fixpoint rstrip (space : ascii -> bool) (s : string) : string :=
  match s with
  | String a s' =>
      match rstrip space s' with
      | EmptyString => if space a then EmptyString else String a EmptyString
      | t => String a t
      end
  | EmptyString => EmptyString
  end.

Definition strip_by (space : ascii -> bool) (s : string) : string :=
  rstrip space (lstrip space s).

(** [str.strip()] *)
Definition strip (s : string) : string := strip_by py_isspace s.

(** The blanks [int(str)] and [float(str)] skip around a literal: unlike
    [str.strip], they keep the separators 28 to 31. *)
Definition num_isspace (a : ascii) : bool :=
  let n := N_of_ascii a in
  ((9 <=? n) && (n <=? 13) || (n =? 32) || (n =? 133) || (n =? 160))%N.

Definition lower_ascii (a : ascii) : ascii :=
  let n := N_of_ascii a in
  if ((65 <=? n) && (n <=? 90))%N then ascii_of_N (n + 32) else a.

Fixpoint lower (s : string) : string :=
  match s with
  | String a s' => String (lower_ascii a) (lower s')
  | EmptyString => EmptyString
  end.

(** ** Numeric literals accepted by [int(str)] and [float(str)] *)

Definition digit_of (a : ascii) : option Z :=
  Z.of_nat <$> Ascii.is_nat a.

(** The rest of a [digitpart ::= digit (["_"] digit)*] once its first digit
    is read: the value so far, the number of digits, the unread input. *)
Fixpoint digits_tail (acc : Z) (n : nat) (s : string) : Z * nat * string :=
  match s with
  | String a s' =>
      match digit_of a with
      | Some d => digits_tail (10 * acc + d) (S n) s'
      | None =>
          if Ascii.eqb a "_" then
            match s' with
            | String b s'' =>
                match digit_of b with
                | Some d => digits_tail (10 * acc + d) (S n) s''
                | None => (acc, n, s)
                end
            | EmptyString => (acc, n, s)
            end
          else (acc, n, s)
      end
  | EmptyString => (acc, n, s)
  end.

(** [digitpart], continuing the value [acc] read so far. *)
Definition digitpart (acc : Z) (s : string) : option (Z * nat * string) :=
  match s with
  | String a s' =>
      match digit_of a with
      | Some d => Some (digits_tail (10 * acc + d) 1 s')
      | None => None
      end
  | EmptyString => None
  end.

(** An optional sign: [true] for a minus. *)
Definition read_sign (s : string) : bool * string :=
  match s with
  | String "+" s' => (false, s')
  | String "-" s' => (true, s')
  | _ => (false, s)
  end.

(** [int(s)] in base 10: surrounding whitespace, a sign, one digitpart. *)
Definition int_of_str (s : string) : option Z :=
  let '(neg, body) := read_sign (strip_by num_isspace s) in
  match digitpart 0 body with
  | Some (v, _, EmptyString) => Some (if neg then - v else v)
  | _ => None
  end.

(** [number ::= [digitpart] "." digitpart | digitpart ["."]]: the digits
    read as one integer, and how many of them follow the point. *)
Definition read_number (s : string) : option (Z * nat * string) :=
  match digitpart 0 s with
  | Some (ip, _, String "." r) =>
      match digitpart ip r with
      | Some (m, nf, r') => Some (m, nf, r')
      | None => Some (ip, 0%nat, r)
      end
  | Some (ip, _, r) => Some (ip, 0%nat, r)
  | None =>
      match s with
      | String "." r => digitpart 0 r
      | _ => None
      end
  end.

(** [exponent ::= ("e" | "E") ["+" | "-"] digitpart], or nothing. *)
Definition read_exponent (s : string) : option Z :=
  match s with
  | EmptyString => Some 0
  | String a r =>
      if Ascii.eqb (lower_ascii a) "e" then
        let '(neg, body) := read_sign r in
        match digitpart 0 body with
        | Some (v, _, EmptyString) => Some (if neg then - v else v)
        | _ => None
        end
      else None
  end.

(** The binary64 value nearest to [m * 10 ^ e10] (ties to even), with the
    sign [neg]; [m] is not negative. *)
Definition decimal_to_float (neg : bool) (m e10 : Z) : pyfloat :=
  match m with
  | Zpos p =>
      if 0 <=? e10 then
        match m * 10 ^ e10 with
        | Zpos q => binary_round 53 1024 neg q 0
        | _ => S754_zero neg
        end
      else
        let '(q, e, l) := SFdiv_core_binary 53 1024 m 0 (10 ^ (- e10)) 0 in
        binary_round_aux 53 1024 neg q e l
  | _ => S754_zero neg
  end.

(** [float(s)]: surrounding whitespace, a sign, then a decimal number with
    an optional exponent, or one of inf, infinity, nan in any case. *)
Definition float_of_str (s : string) : option pyfloat :=
  let '(neg, body) := read_sign (strip_by num_isspace s) in
  let word := lower body in
  if decide (word = "inf" \/ word = "infinity") then Some (S754_infinity neg)
  else if decide (word = "nan") then Some S754_nan
  else
    match read_number body with
    | Some (m, nf, r) =>
        match read_exponent r with
        | Some e => Some (decimal_to_float neg m (e - Z.of_nat nf))
        | None => None
        end
    | None => None
    end.

(** ** Conversions *)

(** [pd.isna] on a scalar. *)
Definition isna (v : scalar) : bool :=
  match v with
  | SNone | SFloat S754_nan => true
  | _ => false
  end.

Definition notna (v : scalar) : bool := negb (isna v).

(** [float(v)] *)
Definition py_float (v : scalar) : res pyfloat :=
  match v with
  | SNone => Raise TypeError
  | SFloat f => Ok f
  | SInt z =>
      match binary_normalize 53 1024 z 0 false with
      | S754_infinity _ => Raise OverflowError
      | f => Ok f
      end
  | SStr s =>
      match float_of_str s with
      | Some f => Ok f
      | None => Raise ValueError
      end
  end.

(** [int(f)] on a float: truncation toward zero. *)
Definition int_of_float (f : pyfloat) : res Z :=
  match f with
  | S754_nan => Raise ValueError
  | S754_infinity _ => Raise OverflowError
  | S754_zero _ => Ok 0
  | S754_finite s m e => Ok (cond_Zopp s (Z.shiftl (Zpos m) e))
  end.

(** [int(v)] *)
Definition py_int (v : scalar) : res Z :=
  match v with
  | SNone => Raise TypeError
  | SFloat f => int_of_float f
  | SInt z => Ok z
  | SStr s =>
      match int_of_str s with
      | Some z => Ok z
      | None => Raise ValueError
      end
  end.

(** [try: ... except (ValueError, TypeError): return None] *)
Definition except_value_type {A} (r : res A) : res (option A) :=
  match r with
  | Ok a => Ok (Some a)
  | Raise ValueError | Raise TypeError => Ok None
  | Raise e => Raise e
  end.

(** [SupplyChainImporter.clean_numeric] *)
Definition clean_numeric (value : scalar) : res (option pyfloat) :=
  if isna value then Ok None else except_value_type (py_float value).

(** [SupplyChainImporter.clean_int] *)
Definition clean_int (value : scalar) : res (option Z) :=
  if isna value then Ok None
  else except_value_type (f <-- py_float value ;; int_of_float f).

(** ** [repr] of a float *)

(** Python prints the shortest decimal that reads back as the same float,
    the one nearest to the exact value when several have that length. *)

(** The exact value [m * 2 ^ e] as a fraction. *)
Definition float_fraction (m : positive) (e : Z) : Z * Z :=
  if 0 <=? e then (Zpos m * 2 ^ e, 1) else (Zpos m, 2 ^ (- e)).

(** [num / den * 10 ^ k] as a fraction. *)
Definition scale10 (num den k : Z) : Z * Z :=
  if 0 <=? k then (num * 10 ^ k, den) else (num, den * 10 ^ (- k)).

(** Whether [10 ^ (n - 1) <= num / den < 10 ^ n]. *)
Definition in_decade (num den n : Z) : bool :=
  let '(a, b) := scale10 num den (- n) in
  (a <? b) && (b <=? 10 * a).

(** The [n] with [10 ^ (n - 1) <= num / den < 10 ^ n], found next to an
    estimate from the binary logarithms. *)
Definition decimal_point (num den : Z) : Z :=
  let est := (Z.log2 num - Z.log2 den) * 30103 / 100000 in
  default est
    (head (filter (fun n => in_decade num den n = true)
             [est - 1; est; est + 1; est + 2; est + 3])).

(** The [k]-digit decimals on both sides of the value, nearest first. *)
Definition candidates (num den n : Z) (k : Z) : list Z :=
  let '(a, b) := scale10 num den (k - n) in
  let lo := a / b in
  let r := a mod b in
  if r =? 0 then [lo]
  else if (2 * r <? b) || ((2 * r =? b) && Z.even lo) then [lo; lo + 1]
  else [lo + 1; lo].

(** The first decimal of at most 17 digits that reads back as the float. *)
Fixpoint shortest (fuel : nat) (k : Z) (m : positive) (e : Z) (num den n : Z)
  : Z * Z :=
  let reads_back d :=
    bool_decide (decimal_to_float false d (n - k) = S754_finite false m e) in
  match head (filter (fun d => reads_back d = true) (candidates num den n k)) with
  | Some d => (d, k)
  | None =>
      match fuel with
      | O => (default 0 (head (candidates num den n k)), k)
      | S fuel' => shortest fuel' (k + 1) m e num den n
      end
  end.

Fixpoint drop_zeros (fuel : nat) (d : Z) : Z :=
  match fuel with
  | O => d
  | S fuel' => if (d mod 10 =? 0) && negb (d =? 0)
               then drop_zeros fuel' (d / 10) else d
  end.

Fixpoint zeros (n : nat) : string :=
  match n with
  | O => ""
  | S n' => String "0" (zeros n')
  end.

Fixpoint take_str (n : nat) (s : string) : string :=
  match n, s with
  | S n', String a s' => String a (take_str n' s')
  | _, _ => ""
  end.

Fixpoint drop_str (n : nat) (s : string) : string :=
  match n, s with
  | S n', String _ s' => drop_str n' s'
  | _, _ => s
  end.

(** The digits of [repr] and the position of the point: the value is
    [0.d1 d2 ... * 10 ^ decpt]. *)
Definition repr_digits (m : positive) (e : Z) : string * Z :=
  let '(num, den) := float_fraction m e in
  let n := decimal_point num den in
  let '(d, k) := shortest 16 1 m e num den n in
  let digits := pretty (drop_zeros 17 d) in
  (digits, n + (Z.of_nat (String.length (pretty d)) - k)).

(** Fixed notation for [-4 < decpt <= 16], exponent notation otherwise. *)
Definition repr_positive (m : positive) (e : Z) : string :=
  let '(digits, decpt) := repr_digits m e in
  let nd := Z.of_nat (String.length digits) in
  if (decpt <=? -4) || (16 <? decpt) then
    let x := decpt - 1 in
    let frac := drop_str 1 digits in
    take_str 1 digits
    +:+ (if decide (frac = "") then "" else "." +:+ frac)
    +:+ "e" +:+ (if x <? 0 then "-" else "+")
    +:+ (if Z.abs x <? 10 then "0" else "") +:+ pretty (Z.abs x)
  else if decpt <=? 0 then
    "0." +:+ zeros (Z.to_nat (- decpt)) +:+ digits
  else if nd <=? decpt then
    digits +:+ zeros (Z.to_nat (decpt - nd)) +:+ ".0"
  else
    take_str (Z.to_nat decpt) digits +:+ "." +:+ drop_str (Z.to_nat decpt) digits.

(** [repr(f)], which is also [str(f)]. *)
Definition float_repr (f : pyfloat) : string :=
  match f with
  | S754_nan => "nan"
  | S754_infinity s => if s then "-inf" else "inf"
  | S754_zero s => if s then "-0.0" else "0.0"
  | S754_finite s m e => (if s then "-" else "") +:+ repr_positive m e
  end.

(** [str(v)] *)
Definition py_str (v : scalar) : string :=
  match v with
  | SNone => "None"
  | SFloat f => float_repr f
  | SInt z => pretty z
  | SStr s => s
  end.

(** ** The frame *)

(** A value of a cell: a number or a text, an empty field being the
    float NaN.  Python's [None] never comes out of the reader. *)
Inductive cell :=
  | CFloat (f : pyfloat)
  | CInt (z : Z)
  | CStr (s : string).

Definition value (c : cell) : scalar :=
  match c with
  | CFloat f => SFloat f
  | CInt z => SInt z
  | CStr s => SStr s
  end.

(** [self.df]: the columns of the file and its records in file order; the
    index of a record is its position.  A record gives the fields of one
    line by column name; the frame is [pd.DataFrame(records, columns)].
    Integers are int64 values. *)
Record frame := { columns : list string; records : list (gmap string cell) }.

(** One row as the loaders see it ([iterrows]) and as [groupby] builds it. *)
Abbreviation row := (gmap string scalar).

(** [row.get(c)] *)
Definition get (r : row) (c : string) : scalar := default SNone (r !! c).

(** [row.get(c, d)] *)
Definition get_or (r : row) (c : string) (d : scalar) : scalar :=
  default d (r !! c).

(** [row[c]] *)
Definition item (r : row) (c : string) : res scalar :=
  match r !! c with
  | Some v => Ok v
  | None => Raise KeyError
  end.

(** [df[[c for c in cols if c in df.columns]]], row by row. *)
Definition select (cols : list string) (r : row) : row :=
  filter (fun kv => kv.1 ∈ cols) r.

(** The dtype of a column: object as soon as it holds a text, int64
    when every record gives it an integer, float64 otherwise.  A frame
    without records has object columns. *)
Inductive dtype := Int64 | Float64 | Object.

Global Instance dtype_eq_dec : EqDecision dtype.
Proof. solve_decision. Defined.

(** The field of a record in a column; NaN when the line does not give
    it. *)
Definition cell_at (rec : gmap string cell) (c : string) : cell :=
  default (CFloat S754_nan) (rec !! c).

Definition is_text (x : cell) : bool :=
  match x with CStr _ => true | _ => false end.

Definition is_int (x : cell) : bool :=
  match x with CInt _ => true | _ => false end.

Definition dtype_of (df : frame) (c : string) : dtype :=
  match records df with
  | [] => Object
  | recs =>
      let cells := (fun rec => cell_at rec c) <$> recs in
      if existsb is_text cells then Object
      else if forallb is_int cells then Int64
      else Float64
  end.

(** An int64 as a float64, rounded to nearest. *)
Definition float_of_Z (z : Z) : pyfloat := binary_normalize 53 1024 z 0 false.

(** What a column of dtype [t] stores for a field: a float64 column
    holds its integers as floats. *)
Definition store (t : dtype) (x : cell) : scalar :=
  match t, x with
  | Float64, CInt z => SFloat (float_of_Z z)
  | _, _ => value x
  end.

(** One record under the columns of its frame, each value as its column
    stores it. *)
Definition row_of (df : frame) (rec : gmap string cell) : row :=
  list_to_map
    ((fun c => (c, store (dtype_of df c) (cell_at rec c))) <$> columns df).

(** The rows of the frame as its columns store them: what a selection
    of columns, a column-wise operation and [groupby] work on. *)
Definition rows (df : frame) : list row := row_of df <$> records df.

(** The dtype of the Series [iterrows] makes of a row: the common dtype
    of the columns. *)
Definition common_dtype (ts : list dtype) : dtype :=
  if bool_decide (Object ∈ ts) then Object
  else if bool_decide (Float64 ∈ ts) then Float64
  else Int64.

Definition upcast (v : scalar) : scalar :=
  match v with
  | SInt z => SFloat (float_of_Z z)
  | _ => v
  end.

Definition upcast_row (r : row) : row := upcast <$> r.

(** [iterrows()] on rows whose columns have the dtypes [ts]: when the
    columns are numbers and one of them is a float64 column, every value
    of a row comes as a float. *)
Definition iterrows_as (ts : list dtype) (rs : list row) : list row :=
  match common_dtype ts with
  | Float64 => upcast_row <$> rs
  | _ => rs
  end.

(** [df.iterrows()] *)
Definition iterrows (df : frame) : list row :=
  iterrows_as (dtype_of df <$> columns df) (rows df).

(** ** The sink *)

Inductive sqlval :=
  | Null
  | IntV (z : Z)
  | FloatV (f : pyfloat)
  | TextV (s : string).

Inductive table := Customers | Products | Orders | ShippingDetails.

(** One [cursor.execute(insert_query, params)]. *)
Record stmt := { into : table; params : list sqlval }.

(** What [execute] followed by [fetchone] gives: the generated key, no
    row at all, or a raised [psycopg2.Error]. *)
Inductive reply :=
  | Fetched (key : Z)
  | NoRow
  | Failed.

(** What one iteration of a pass does, in program order: the lookups in
    the key maps, the statements sent with what came back, the commits with
    whether they went through. *)
Inductive event :=
  | CustomerGet (k : option Z)
  | ProductGet (k : option string)
  | OrderGet (idx : nat)
  | Execute (s : stmt) (y : reply)
  | Commit (ok : bool).

Global Instance reply_eq_dec : EqDecision reply.
Proof. solve_decision. Defined.
Global Instance sqlval_eq_dec : EqDecision sqlval.
Proof. solve_decision. Defined.
Global Instance table_eq_dec : EqDecision table.
Proof. solve_decision. Defined.
Global Instance stmt_eq_dec : EqDecision stmt.
Proof. solve_decision. Defined.
Global Instance event_eq_dec : EqDecision event.
Proof. solve_decision. Defined.

(** Truthiness of a looked-up key: [not key] holds for [None] and for 0. *)
Definition truthy (k : option Z) : bool :=
  match k with
  | Some z => negb (z =? 0)
  | None => false
  end.

(** Tallies of the order pass. *)
Record order_state := {
  order_map : gmap nat Z;
  processed : nat;
  no_customer : nat;
  no_product : nat;
  error : nat
}.

Definition order_state0 : order_state :=
  {| order_map := ∅; processed := 0; no_customer := 0; no_product := 0;
     error := 0 |}.

Definition customer_cols : list string :=
  ["Customer Id"; "Customer Email"; "Customer Fname"; "Customer Lname";
   "Customer Segment"; "Customer City"; "Customer State"; "Customer Country";
   "Customer Zipcode"; "Customer Street"; "Latitude"; "Longitude"].

Definition product_cols : list string :=
  ["Product Name"; "Product Card Id"; "Category Name"; "Department Name";
   "Product Price"; "Product Description"; "Product Image"; "Product Status"].

Definition sql_int (o : option Z) : sqlval := from_option IntV Null o.
Definition sql_float (o : option pyfloat) : sqlval := from_option FloatV Null o.

(** How a hash table tells group keys apart: numbers by their value,
    whatever their type, so that 0.0 and -0.0 are one key, and 1 and 1.0;
    texts by their characters. *)
Inductive hkey :=
  | KNum (n e : Z)
  | KInf (s : bool)
  | KNaN
  | KStr (s : string)
  | KNone.

Global Instance hkey_eq_dec : EqDecision hkey.
Proof. solve_decision. Defined.

(** [p] is [q * 2^k] with [q] odd. *)
Fixpoint odd_part (p : positive) : positive * Z :=
  match p with
  | xO p' => let '(q, k) := odd_part p' in (q, k + 1)
  | _ => (p, 0)
  end.

(** The number [n * 2^e], written with [n] odd or zero. *)
Definition dyadic (n e : Z) : hkey :=
  match n with
  | Z0 => KNum 0 0
  | Zpos p => let '(q, k) := odd_part p in KNum (Zpos q) (e + k)
  | Zneg p => let '(q, k) := odd_part p in KNum (Zneg q) (e + k)
  end.

Definition hash_key (v : scalar) : hkey :=
  match v with
  | SNone => KNone
  | SInt z => dyadic z 0
  | SFloat (S754_zero _) => KNum 0 0
  | SFloat (S754_finite s m e) => dyadic (cond_Zopp s (Zpos m)) e
  | SFloat (S754_infinity s) => KInf s
  | SFloat S754_nan => KNaN
  | SStr s => KStr s
  end.

(** The distinct keys of a list, each as it first occurs. *)
Fixpoint uniques_from (seen : list hkey) (l : list scalar) : list scalar :=
  match l with
  | [] => []
  | k :: l' =>
      if decide (hash_key k ∈ seen) then uniques_from seen l'
      else k :: uniques_from (hash_key k :: seen) l'
  end.

Definition uniques (l : list scalar) : list scalar := uniques_from [] l.

(** Order of the group keys of one column: numbers by value, texts by code
    point, numbers before texts. *)
Definition kind (v : scalar) : nat :=
  match v with SNone => 0 | SFloat _ => 1 | SInt _ => 2 | SStr _ => 3 end%nat.

Definition num_leb (a b : hkey) : bool :=
  match a, b with
  | KNum n1 e1, KNum n2 e2 =>
      let e := Z.min e1 e2 in n1 * 2 ^ (e1 - e) <=? n2 * 2 ^ (e2 - e)
  | KInf true, _ | _, KInf false => true
  | _, _ => false
  end.

Definition scalar_leb (a b : scalar) : bool :=
  match a, b with
  | SInt x, SInt y => x <=? y
  | SFloat f, SFloat g => SFleb f g
  | SStr s, SStr t => String.leb s t
  | SInt _, SFloat _ | SFloat _, SInt _ => num_leb (hash_key a) (hash_key b)
  | _, _ => (kind a <=? kind b)%nat
  end.

Definition scalar_le (a b : scalar) : Prop := scalar_leb a b = true.

Global Instance scalar_le_dec : RelDecision scalar_le.
Proof. intros a b. unfold scalar_le. apply _. Defined.

Definition bump_no_customer (st : order_state) : order_state :=
  {| order_map := order_map st; processed := processed st;
     no_customer := S (no_customer st); no_product := no_product st;
     error := error st |}.

Definition bump_no_product (st : order_state) : order_state :=
  {| order_map := order_map st; processed := processed st;
     no_customer := no_customer st; no_product := S (no_product st);
     error := error st |}.

Definition bump_error (st : order_state) : order_state :=
  {| order_map := order_map st; processed := processed st;
     no_customer := no_customer st; no_product := no_product st;
     error := S (error st) |}.

(** [order_map[idx] = key; processed += 1] *)
Definition record_order (idx : nat) (key : Z) (st : order_state) : order_state :=
  {| order_map := <[idx := key]> (order_map st); processed := S (processed st);
     no_customer := no_customer st; no_product := no_product st;
     error := error st |}.


(** ** Sample sinks and frames *)

(** A sink that numbers what it inserts from [next] on, as a serial column
    does, and whose commits go through. *)
Definition serial_execute (next : Z) (_ : stmt) : reply * Z :=
  (Fetched next, next + 1).

Definition commit_ok {A : Type} (d : A) : bool * A := (true, d).

(** A sink that replays a list of replies, then fails. *)
Definition scripted_execute (script : list reply) (_ : stmt)
  : reply * list reply :=
  match script with
  | y :: rest => (y, rest)
  | [] => (Failed, [])
  end.

Definition nan_fill (_ : string) : scalar := SFloat S754_nan.

Definition record (fields : list (string * cell)) : gmap string cell :=
  list_to_map fields.

(** Two order lines for the product Widget, of the customers 1 and 2. *)
Definition widget_orders : frame :=
  {| columns := ["Customer Id"; "Product Name"];
     records :=
       [record [("Customer Id", CInt 1); ("Product Name", CStr "Widget")];
        record [("Customer Id", CInt 2); ("Product Name", CStr "Widget")]] |}.

Definition widget_customers : gmap Z Z := {[1 := 101]}.
Definition widget_products : gmap string Z := {["Widget" := 501]}.

(** One order line of customer 1 for the product Widget. *)
Definition one_order : frame :=
  {| columns := ["Customer Id"; "Product Name"];
     records :=
       [record [("Customer Id", CInt 1); ("Product Name", CStr "Widget")]] |}.

(** Two lines of customer 1: the first without an email, the second with. *)
Definition ann_bob : frame :=
  {| columns := ["Customer Id"; "Customer Email"; "Customer Fname"];
     records :=
       [record [("Customer Id", CInt 1); ("Customer Email", CFloat S754_nan);
                ("Customer Fname", CStr "Ann")];
        record [("Customer Id", CInt 1); ("Customer Email", CStr "bob@x.org");
                ("Customer Fname", CStr "Bob")]] |}.

(** One line of customer 7, whose email field is empty. *)
Definition no_email : frame :=
  {| columns := ["Customer Id"; "Customer Email"];
     records :=
       [record [("Customer Id", CInt 7); ("Customer Email", CFloat S754_nan)]] |}.

(** Four lines of customer 1: a padded name, an empty name, a blank one,
    and the text nan. *)
Definition mixed_names : frame :=
  {| columns := ["Customer Id"; "Product Name"];
     records :=
       [record [("Customer Id", CInt 1); ("Product Name", CStr " Widget ")];
        record [("Customer Id", CInt 1); ("Product Name", CFloat S754_nan)];
        record [("Customer Id", CInt 1); ("Product Name", CStr "  ")];
        record [("Customer Id", CInt 1); ("Product Name", CStr "nan")]] |}.

(** The first line of [one_order] as the loaders see it. *)
Definition widget_row : row :=
  list_to_map [("Customer Id", SInt 1); ("Product Name", SStr "Widget")].

(** The statement the order pass sends for [widget_row]. *)
Definition widget_insert : stmt :=
  {| into := Orders;
     params := [Null; IntV 101; IntV 501; Null; Null; Null; Null; Null; Null;
                Null; Null; Null; Null; Null; Null; Null] |}.

(** What the order pass gives on [widget_orders] with the two maps above,
    the sink numbering from 7. *)
Definition widget_state : order_state :=
  {| order_map := {[0%nat := 7]}; processed := 1; no_customer := 1;
     no_product := 0; error := 0 |}.

Definition widget_order_map : gmap nat Z := {[0%nat := 7]}.

Definition widget_journal : list (list event) :=
  [[CustomerGet (Some 1); ProductGet (Some "Widget");
    Execute widget_insert (Fetched 7)];
   [CustomerGet (Some 2); ProductGet (Some "Widget")]].

(** The statement the customer pass sends for a row that has only an id
    and an email. *)
Definition customer_insert (email : string) : stmt :=
  {| into := Customers;
     params := [TextV email; TextV ""; TextV ""; Null; Null; Null; Null; Null;
                Null; Null; Null] |}.

(** The statement the shipping pass sends for a row of [widget_orders]. *)
Definition shipping_insert (order_id : Z) : stmt :=
  {| into := ShippingDetails;
     params := [IntV order_id; Null; Null; Null; Null; Null; Null] |}.

(** The canonical customers of [ann_bob] and of [no_email], and the first
    line of [ann_bob]. *)
Definition ann_first : row :=
  list_to_map [("Customer Id", SInt 1); ("Customer Email", SFloat S754_nan);
               ("Customer Fname", SStr "Ann")].

Definition ann_bob_canonical : row :=
  list_to_map [("Customer Id", SInt 1); ("Customer Email", SStr "bob@x.org");
               ("Customer Fname", SStr "Ann")].

Definition no_email_canonical : row :=
  list_to_map [("Customer Id", SInt 7); ("Customer Email", SFloat S754_nan)].

(** ** The report of an import *)

(** What a completed import leaves: for each pass what it returns or
    prints, and its journal. *)
Record report := {
  customer_pass : gmap Z Z * nat * list (list event);
  product_pass : gmap string Z * nat * list (list event);
  order_pass : order_state * list (list event);
  shipping_pass : nat * nat * list (list event)
}.

(** ** More sample data *)

(** The statements the product pass and the order pass send for rows
    that have only a name, or only the two keys. *)
Definition product_insert (name : string) : stmt :=
  {| into := Products;
     params := [TextV name; Null; Null; Null; Null; Null; Null; Null] |}.

Definition plain_order (customer_id product_id : Z) : stmt :=
  {| into := Orders;
     params := [Null; IntV customer_id; IntV product_id; Null; Null; Null;
                Null; Null; Null; Null; Null; Null; Null; Null; Null; Null] |}.

(** What the customer pass gives on [widget_orders], the sink numbering
    from 101. *)
Definition widget_customer_map : gmap Z Z := {[1 := 101; 2 := 102]}.

Definition widget_customer_journal : list (list event) :=
  [[Execute (customer_insert "customer_1@placeholder.com") (Fetched 101)];
   [Execute (customer_insert "customer_2@placeholder.com") (Fetched 102)]].

(** What the product pass gives on [widget_orders] and on [mixed_names],
    the sink giving [key]. *)
Definition widget_product_journal (key : Z) : list (list event) :=
  [[Execute (product_insert "Widget") (Fetched key)]].

(** What the shipping pass gives on [widget_orders] with the order map
    {0: 7}, the sink numbering from 1. *)
Definition widget_shipping_journal : list (list event) :=
  [[OrderGet 0; Execute (shipping_insert 7) (Fetched 1)]; [OrderGet 1]].

(** The journals of the order pass and of the shipping pass on
    [widget_orders] when the batch size is 1: each insert that goes
    through is followed by a commit. *)
Definition widget_journal_by_one : list (list event) :=
  [[CustomerGet (Some 1); ProductGet (Some "Widget");
    Execute widget_insert (Fetched 7); Commit true];
   [CustomerGet (Some 2); ProductGet (Some "Widget")]].

Definition widget_shipping_by_one : list (list event) :=
  [[OrderGet 0; Execute (shipping_insert 7) (Fetched 1); Commit true];
   [OrderGet 1]].

(** The first line of [mixed_names] as the loaders see it. *)
Definition padded_row : row :=
  list_to_map [("Customer Id", SInt 1); ("Product Name", SStr " Widget ")].


Definition text_id_row : row :=
  list_to_map [("Customer Id", SStr "abc"); ("Product Name", SStr "Widget")].

(** What the order pass gives on [widget_orders] when both maps are
    empty. *)
Definition widget_unmatched : order_state :=
  {| order_map := ∅; processed := 0; no_customer := 2; no_product := 0;
     error := 0 |}.

Definition widget_unmatched_journal : list (list event) :=
  [[CustomerGet (Some 1); ProductGet (Some "Widget")];
   [CustomerGet (Some 2); ProductGet (Some "Widget")]].

(** The float a text reads as. *)
Definition as_float (s : string) : pyfloat :=
  default S754_nan (float_of_str s).

(** Two lines whose customer ids are the floats 3.7 and 3.2. *)
Definition fractional_ids : frame :=
  {| columns := ["Customer Id"];
     records := [record [("Customer Id", CFloat (as_float "3.7"))];
                 record [("Customer Id", CFloat (as_float "3.2"))]] |}.

(** Two lines whose customer ids are the floats -0.0 and 0.0. *)
Definition signed_zeros : frame :=
  {| columns := ["Customer Id"];
     records := [record [("Customer Id", CFloat (as_float "-0.0"))];
                 record [("Customer Id", CFloat (as_float "0.0"))]] |}.

(** One order line that holds numbers only: the product name is the
    integer 123 and the sales are 9.5. *)
Definition numbers_only : frame :=
  {| columns := ["Customer Id"; "Product Name"; "Sales per customer"];
     records := [record [("Customer Id", CInt 1); ("Product Name", CInt 123);
                         ("Sales per customer", CFloat (as_float "9.5"))]] |}.

(** A sink that numbers what it inserts from [next] on, and so never
    gives the key 0. *)
Definition counting_execute (next : positive) (_ : stmt) : reply * positive :=
  (Fetched (Zpos next), Pos.succ next).

(** The canonical customers and the canonical product of
    [widget_orders]. *)
Definition widget_canonical (source_id : Z) : row :=
  list_to_map [("Customer Id", SInt source_id)].

Definition widget_product : row :=
  list_to_map [("Product Name", SStr "Widget")].

(** The whole import of [widget_orders], the sink numbering from 101:
    two customers, one product, two orders, two shipping rows. *)
Definition widget_report : report :=
  {| customer_pass := (widget_customer_map, 2%nat, widget_customer_journal);
     product_pass := ({["Widget" := 103]}, 1%nat, widget_product_journal 103);
     order_pass :=
       ({| order_map := {[0%nat := 104; 1%nat := 105]}; processed := 2;
           no_customer := 0; no_product := 0; error := 0 |},
        [[CustomerGet (Some 1); ProductGet (Some "Widget");
          Execute (plain_order 101 103) (Fetched 104)];
         [CustomerGet (Some 2); ProductGet (Some "Widget");
          Execute (plain_order 102 103) (Fetched 105)]]);
     shipping_pass :=
       (2%nat, 0%nat,
        [[OrderGet 0; Execute (shipping_insert 104) (Fetched 106)];
         [OrderGet 1; Execute (shipping_insert 105) (Fetched 107)]]) |}.

Section Pipeline.

(** What [GroupBy.first] leaves in a column in which a group holds no
    value: NaN or None, by the dtype of the column. *)
Variable na_fill : string -> scalar.
Hypothesis na_fill_isna : forall c, isna (na_fill c) = true.

(** The connection: [execute] with its [fetchone], and [commit], which
    tells whether it went through. *)
Context {db : Type}.
Variable execute : db -> stmt -> reply * db.
Variable commit : db -> bool * db.

(** [str(row.get(c, '')) if pd.notna(row.get(c)) else None] *)
Definition opt_str (r : row) (c : string) : sqlval :=
  if notna (get r c) then TextV (py_str (get_or r c (SStr ""))) else Null.

(** [if count % batch_size == 0: self.conn.commit()]; the boolean is
    false when the commit raised [psycopg2.Error]. *)
Definition batch_commit (count : nat) (batch_size : Z) (d : db)
  : res (bool * db * list event) :=
  if batch_size =? 0 then Raise ZeroDivisionError
  else if Z.of_nat count mod batch_size =? 0 then
    let '(ok, d) := commit d in Ok (ok, d, [Commit ok])
  else Ok (true, d, []).

(** [for idx, row in rows: step], from position [idx] on.  The journal
    gets the events of each iteration; an exception that leaves [step]
    ends the pass. *)
Fixpoint loop {St : Type}
    (step : nat -> row -> St * db -> res (St * db * list event))
    (idx : nat) (rs : list row) (s : St * db * list (list event))
  : res (St * db * list (list event)) :=
  match rs with
  | [] => Ok s
  | r :: rs' =>
      x <-- step idx r (s.1.1, s.1.2) ;;
      loop step (S idx) rs' (x.1.1, x.1.2, s.2 ++ [x.2])
  end.

(** The [self.conn.commit()] that ends a pass. *)
Definition final_commit {St : Type} (s : St * db * list (list event))
  : res (St * db * list (list event)) :=
  let '(ok, d) := commit s.1.2 in
  if ok then Ok (s.1.1, d, s.2) else Raise DbError.

(** *** Deduplication: [groupby(key, as_index=False).first()] *)

(** The distinct keys of the key column, absent ones dropped, each as
    it first occurs, sorted. *)
Definition group_keys (key : string) (rs : list row) : list scalar :=
  merge_sort scalar_le
    (uniques (filter (fun v => notna v = true) ((fun r => get r key) <$> rs))).

(** The rows of the group of the key [k], in file order. *)
Definition group_of (key : string) (k : scalar) (rs : list row) : list row :=
  filter (fun r => hash_key (get r key) = hash_key k) rs.

(** [first] of one column of a group: its first value that is present. *)
Definition first_valid (c : string) (g : list row) : scalar :=
  from_option snd (na_fill c)
    (list_find (fun v => notna v = true) ((fun r => get r c) <$> g)).

Definition group_first (key : string) (cols : list string) (rs : list row)
    (k : scalar) : row :=
  list_to_map
    ((fun c => (c, if decide (c = key) then k
                      else first_valid c (group_of key k rs))) <$> cols).

Definition groupby_first (key : string) (cols : list string) (rs : list row)
  : list row :=
  group_first key cols rs <$> group_keys key rs.

(** *** Customers *)

Definition placeholder_email (source_id : Z) : string :=
  "customer_" +:+ pretty source_id +:+ "@placeholder.com".

Definition customer_params (r : row) (source_id : Z) : res (list sqlval) :=
  let email :=
    py_str (get_or r "Customer Email" (SStr (placeholder_email source_id))) in
  lat <-- clean_numeric (get r "Latitude") ;;
  lon <-- clean_numeric (get r "Longitude") ;;
  Ok [TextV email;
      TextV (py_str (get_or r "Customer Fname" (SStr "")));
      TextV (py_str (get_or r "Customer Lname" (SStr "")));
      opt_str r "Customer Segment"; opt_str r "Customer City";
      opt_str r "Customer State"; opt_str r "Customer Country";
      opt_str r "Customer Zipcode"; opt_str r "Customer Street";
      sql_float lat; sql_float lon].

(** The body of the customer loop; whatever it raises is swallowed by
    [except Exception: continue]. *)
Definition customer_row (r : row) (s : gmap Z Z * nat * db)
  : gmap Z Z * nat * db * list event :=
  match (source_id <-- rbind (item r "Customer Id") py_int ;;
         ps <-- customer_params r source_id ;;
         Ok (source_id, ps)) with
  | Raise _ => (s, [])
  | Ok (source_id, ps) =>
      let q := {| into := Customers; params := ps |} in
      let '(result, d) := execute s.2 q in
      match result with
      | Failed => (s.1, d, [Execute q Failed])
      | _ =>
          let '(customer_map, imported) :=
            match result with
            | Fetched key => (<[source_id := key]> s.1.1, S s.1.2)
            | _ => s.1
            end in
          if Z.of_nat imported mod 1000 =? 0 then
            let '(ok, d) := commit d in
            (customer_map, imported, d, [Execute q result; Commit ok])
          else (customer_map, imported, d, [Execute q result])
      end
  end.

(** [customers]: the customer columns of the frame, on the rows that
    have a customer id. *)
Definition customer_columns (df : frame) : list string :=
  filter (fun c => c ∈ columns df) customer_cols.

Definition customers (df : frame) : list row :=
  filter (fun r => notna (get r "Customer Id") = true)
    (select (customer_columns df) <$> rows df).

(** [customers_unique]: the canonical customers of a frame. *)
Definition customers_unique (df : frame) : list row :=
  groupby_first "Customer Id" (customer_columns df) (customers df).

(** [customers_unique.iterrows()]: the canonical customers as the loop
    gets them.  The columns of [customers_unique] have the dtypes of the
    customer columns of the frame. *)
Definition customer_rows (df : frame) : list row :=
  iterrows_as (dtype_of df <$> customer_columns df) (customers_unique df).

(** [import_customers]: the key map with the count it prints, the
    connection, the journal. *)
Definition import_customers (df : frame) (d : db)
  : res (gmap Z Z * nat * db * list (list event)) :=
  if decide ("Customer Id" ∈ columns df) then
    s <-- loop (fun _ r s => Ok (customer_row r s)) 0 (customer_rows df)
            (∅, 0%nat, d, []) ;;
    final_commit s
  else Raise KeyError.

(** *** Products *)

(** [products['Product Name'].astype(str).str.strip()] on one row. *)
Definition normalise_name (r : row) : row :=
  <["Product Name" := SStr (strip (py_str (get r "Product Name")))]> r.

(** The filter on the product names. *)
Definition keep_product (r : row) : bool :=
  notna (get r "Product Name")
  && bool_decide (get r "Product Name" ≠ SStr "nan")
  && bool_decide (get r "Product Name" ≠ SStr "").

Definition product_params (r : row) (product_name : string)
  : res (list sqlval) :=
  card <-- clean_int (get r "Product Card Id") ;;
  price <-- clean_numeric (get r "Product Price") ;;
  status <-- clean_int (get r "Product Status") ;;
  Ok [TextV product_name; sql_int card;
      opt_str r "Category Name"; opt_str r "Department Name";
      sql_float price;
      opt_str r "Product Description"; opt_str r "Product Image";
      sql_int status].

(** The body of the product loop, under [except Exception: continue]. *)
Definition product_row (r : row) (s : gmap string Z * nat * db)
  : gmap string Z * nat * db * list event :=
  match (name <-- item r "Product Name" ;;
         let product_name := strip (py_str name) in
         ps <-- product_params r product_name ;;
         Ok (product_name, ps)) with
  | Raise _ => (s, [])
  | Ok (product_name, ps) =>
      let q := {| into := Products; params := ps |} in
      let '(result, d) := execute s.2 q in
      match result with
      | Fetched key =>
          (<[product_name := key]> s.1.1, S s.1.2, d, [Execute q result])
      | _ => (s.1, d, [Execute q result])
      end
  end.

(** [products]: the product columns of the frame with the names as
    trimmed texts, on the rows that have a name. *)
Definition product_columns (df : frame) : list string :=
  filter (fun c => c ∈ columns df) product_cols.

Definition products (df : frame) : list row :=
  filter (fun r => keep_product r = true)
    ((fun r => normalise_name (select (product_columns df) r))
       <$> rows df).

(** [products_unique]: the canonical products of a frame.  Its name
    column is a text column, so [iterrows] hands its rows over as they
    are. *)
Definition products_unique (df : frame) : list row :=
  groupby_first "Product Name" (product_columns df) (products df).

Definition import_products (df : frame) (d : db)
  : res (gmap string Z * nat * db * list (list event)) :=
  if decide ("Product Name" ∈ columns df) then
    s <-- loop (fun _ r s => Ok (product_row r s)) 0 (products_unique df)
            (∅, 0%nat, d, []) ;;
    final_commit s
  else Raise KeyError.

(** *** Orders *)

Definition order_params (r : row) (customer_id product_id : Z)
  : res (list sqlval) :=
  item_id <-- clean_int (get r "Order Item Id") ;;
  quantity <-- clean_int (get r "Order Item Quantity") ;;
  sales <-- clean_numeric (get r "Sales per customer") ;;
  discount <-- clean_numeric (get r "Order Item Discount") ;;
  profit <-- clean_numeric (get r "Order Profit Per Order") ;;
  Ok [sql_int item_id; IntV customer_id; IntV product_id;
      opt_str r "order date (DateOrders)"; opt_str r "order date (DateOrders)";
      sql_int quantity; sql_float sales; sql_float discount; sql_float profit;
      opt_str r "Order Status"; opt_str r "Market"; opt_str r "Order Region";
      opt_str r "Order Country"; opt_str r "Order City";
      opt_str r "Order State"; opt_str r "Order Zipcode"].

(** [int(row['Customer Id']) if pd.notna(row.get('Customer Id')) else None] *)
Definition source_customer_id (r : row) : res (option Z) :=
  if notna (get r "Customer Id")
  then z <-- rbind (item r "Customer Id") py_int ;; Ok (Some z)
  else Ok None.

(** [str(row.get('Product Name', '')).strip()
     if pd.notna(row.get('Product Name')) else None] *)
Definition order_product_name (r : row) : option string :=
  if notna (get r "Product Name")
  then Some (strip (py_str (get_or r "Product Name" (SStr ""))))
  else None.

(** The [try] block of the order loop, for a row whose two keys are
    truthy.  Only [psycopg2.Error] is handled. *)
Definition order_insert (batch_size : Z) (idx : nat) (r : row)
    (customer_id product_id : Z) (st : order_state) (d : db)
  : res (order_state * db * list event) :=
  ps <-- order_params r customer_id product_id ;;
  let q := {| into := Orders; params := ps |} in
  let '(result, d) := execute d q in
  match result with
  | Failed => Ok (bump_error st, d, [Execute q Failed])
  | _ =>
      let st := match result with
                | Fetched key => record_order idx key st
                | _ => st
                end in
      c <-- batch_commit (processed st) batch_size d ;;
      Ok (if c.1.1 then st else bump_error st, c.1.2, Execute q result :: c.2)
  end.

(** One iteration of the order loop. *)
Definition order_row (customer_map : gmap Z Z) (product_map : gmap string Z)
    (batch_size : Z) (idx : nat) (r : row) (s : order_state * db)
  : res (order_state * db * list event) :=
  source_id <-- source_customer_id r ;;
  let product_name := order_product_name r in
  let customer_id := source_id ≫= (customer_map !!.) in
  let product_id := product_name ≫= (product_map !!.) in
  let lookups := [CustomerGet source_id; ProductGet product_name] in
  if negb (truthy customer_id) then Ok (bump_no_customer s.1, s.2, lookups)
  else if negb (truthy product_id) then Ok (bump_no_product s.1, s.2, lookups)
  else
    x <-- order_insert batch_size idx r
            (default 0 customer_id) (default 0 product_id) s.1 s.2 ;;
    Ok (x.1, lookups ++ x.2).

(** [import_orders]: the key map with the tallies, the connection, the
    journal. *)
Definition import_orders (df : frame) (customer_map : gmap Z Z)
    (product_map : gmap string Z) (batch_size : Z) (d : db)
  : res (order_state * db * list (list event)) :=
  s <-- loop (order_row customer_map product_map batch_size) 0 (iterrows df)
          (order_state0, d, []) ;;
  final_commit s.

(** *** Shipping *)

Definition shipping_params (r : row) (order_id : Z) : res (list sqlval) :=
  real <-- clean_int (get r "Days for shipping (real)") ;;
  scheduled <-- clean_int (get r "Days for shipment (scheduled)") ;;
  risk <-- clean_int (get r "Late_delivery_risk") ;;
  Ok [IntV order_id;
      opt_str r "shipping date (DateOrders)"; opt_str r "Shipping Mode";
      sql_int real; sql_int scheduled;
      opt_str r "Delivery Status"; sql_int risk].

(** One iteration of the shipping loop, on the counters
    (processed, skipped). *)
Definition shipping_row (omap : gmap nat Z) (batch_size : Z) (idx : nat)
    (r : row) (s : nat * nat * db) : res (nat * nat * db * list event) :=
  let order_id := omap !! idx in
  if negb (truthy order_id) then Ok (s.1.1, S s.1.2, s.2, [OrderGet idx])
  else
    ps <-- shipping_params r (default 0 order_id) ;;
    let q := {| into := ShippingDetails; params := ps |} in
    let '(result, d) := execute s.2 q in
    match result with
    | Failed => Ok (s.1.1, S s.1.2, d, [OrderGet idx; Execute q Failed])
    | _ =>
        c <-- batch_commit (S s.1.1) batch_size d ;;
        Ok (S s.1.1, if c.1.1 then s.1.2 else S s.1.2, c.1.2,
            OrderGet idx :: Execute q result :: c.2)
    end.

Definition import_shipping (df : frame) (omap : gmap nat Z) (batch_size : Z)
    (d : db) : res (nat * nat * db * list (list event)) :=
  s <-- loop (shipping_row omap batch_size) 0 (iterrows df)
          (0%nat, 0%nat, d, []) ;;
  final_commit s.

(** *** Notions used in the statements *)

(** The customer check of the order loop sends the row away. *)
Definition customer_fails (customer_map : gmap Z Z) (r : row) : bool :=
  match source_customer_id r with
  | Ok source_id => negb (truthy (source_id ≫= (customer_map !!.)))
  | Raise _ => false
  end.

(** The product check of the order loop, for a row that reaches it. *)
Definition product_fails (product_map : gmap string Z) (r : row) : bool :=
  negb (truthy (order_product_name r ≫= (product_map !!.))).

(** A row without a usable product name: absent, blank once trimmed, or
    the text nan. *)
Definition unnamed (r : row) : bool :=
  isna (get r "Product Name")
  || bool_decide (strip (py_str (get r "Product Name")) = "")
  || bool_decide (strip (py_str (get r "Product Name")) = "nan").


(** The rows of the frame that bear the customer id [k], in file order:
    those whose id is the same key as [k]. *)
Definition bearing (df : frame) (k : scalar) : list row :=
  filter (fun r => hash_key (get r "Customer Id") = hash_key k) (rows df).

(** An iteration met a [psycopg2.Error]. *)
Definition db_error (evs : list event) : bool :=
  existsb (fun e => match e with
                    | Execute _ Failed | Commit false => true
                    | _ => false
                    end) evs.

(** The state an insert leaves before the batch commit is tried. *)
Definition after_reply (idx : nat) (y : reply) (st : order_state)
  : order_state :=
  match y with
  | Fetched key => record_order idx key st
  | _ => st
  end.

(** The id under which the customer loop files a canonical row. *)
Definition row_id (r : row) : option Z :=
  match rbind (item r "Customer Id") py_int with
  | Ok z => Some z
  | Raise _ => None
  end.

(** *** The pipeline *)

(** The four loader calls of [run], in program order, each on the
    connection as the one before leaves it; an exception that leaves a
    loader ends the sequence. *)
Definition run (df : frame) (batch_size : Z) (d : db) : res (report * db) :=
  c <-- import_customers df d ;;
  p <-- import_products df c.1.2 ;;
  o <-- import_orders df c.1.1.1 p.1.1.1 batch_size p.1.2 ;;
  s <-- import_shipping df (order_map o.1.1) batch_size o.1.2 ;;
  Ok ({| customer_pass := (c.1.1, c.2);
         product_pass := (p.1.1, p.2);
         order_pass := (o.1.1, o.2);
         shipping_pass := (s.1.1, s.2) |}, s.1.2).

(** *** More notions used in the statements *)

(** The statements an iteration sent. *)
Definition statements (evs : list event) : list stmt :=
  omap (fun e => match e with Execute q _ => Some q | _ => None end) evs.

(** An iteration got a key back. *)
Definition answered (evs : list event) : bool :=
  existsb (fun e => match e with
                    | Execute _ (Fetched _) => true
                    | _ => false
                    end) evs.

(** An iteration sent a statement that did not fail. *)
Definition accepted (evs : list event) : bool :=
  existsb (fun e => match e with
                    | Execute _ (Fetched _) | Execute _ NoRow => true
                    | _ => false
                    end) evs.

(** An iteration tried a commit that did not go through. *)
Definition commit_failed (evs : list event) : bool :=
  existsb (fun e => match e with Commit false => true | _ => false end) evs.

(** An iteration tried a commit. *)
Definition committing (evs : list event) : bool :=
  existsb (fun e => match e with Commit _ => true | _ => false end) evs.

(** The statement the customer loop sends for a canonical row, if any. *)
Definition customer_statement (r : row) : option stmt :=
  match (source_id <-- rbind (item r "Customer Id") py_int ;;
         customer_params r source_id) with
  | Ok ps => Some {| into := Customers; params := ps |}
  | Raise _ => None
  end.

(** The name under which the product loop files a canonical row, and
    the statement it sends for it, if any. *)
Definition product_key (r : row) : option string :=
  match item r "Product Name" with
  | Ok name => Some (strip (py_str name))
  | Raise _ => None
  end.

Definition product_statement (r : row) : option stmt :=
  match (name <-- item r "Product Name" ;;
         product_params r (strip (py_str name))) with
  | Ok ps => Some {| into := Products; params := ps |}
  | Raise _ => None
  end.

(** An iteration of a dimension loop sends the statement of the row, if
    it has one, and files the row under its key when a key comes back. *)
Definition keyed_step {K} `{Countable K} (key_of : row -> option K)
    (statement_of : row -> option stmt)
    (step : row -> gmap K Z * nat * db -> gmap K Z * nat * db * list event)
  : Prop :=
  forall r s,
    (statement_of r = None /\ step r s = (s, []))
    \/ exists k q y d1 evs,
         key_of r = Some k /\ statement_of r = Some q
         /\ execute s.2 q = (y, d1)
         /\ (step r s).2 = Execute q y :: evs
         /\ (forall e, e ∈ evs -> exists ok, e = Commit ok)
         /\ (step r s).1.1
            = match y with
              | Fetched key => (<[k := key]> s.1.1, S s.1.2)
              | _ => s.1
              end.

(** ** Properties *)

(** *** Coercion *)

(** The values the specification lists. *)
Lemma clean_examples :
  clean_numeric (SStr "3.14")
  = Ok (Some (S754_finite false 7070651414971679 (-51)))
  /\ clean_numeric (SStr "") = Ok None
  /\ clean_numeric SNone = Ok None
  /\ clean_int (SStr "5.0") = Ok (Some 5)
  /\ clean_int (SStr "abc") = Ok None.
Proof. repeat split; vm_compute; reflexivity. Qed.



(** *** The error monad and the loop *)

Lemma rbind_Ok {A B} (r : res A) (k : A -> res B) (b : B) :
  rbind r k = Ok b -> exists a, r = Ok a /\ k a = Ok b.
Proof. destruct r as [a|e]; simpl; [eauto | discriminate]. Qed.

Lemma loop_app {St} (step : nat -> row -> St * db -> res (St * db * list event))
    (l1 l2 : list row) (i : nat) s :
  loop step i (l1 ++ l2) s
  = (s1 <-- loop step i l1 s ;; loop step (i + length l1) l2 s1).
Proof.
  revert i s. induction l1 as [|r l1 IH]; intros i s; simpl.
  - by rewrite Nat.add_0_r.
  - destruct (step i r (s.1.1, s.1.2)) as [x|e]; simpl; [|done].
    rewrite IH. by replace (S i + length l1)%nat with (i + S (length l1))%nat by lia.
Qed.

Lemma loop_snoc {St} (step : nat -> row -> St * db -> res (St * db * list event))
    (l : list row) (r : row) s0 s' :
  loop step 0 (l ++ [r]) s0 = Ok s' ->
  exists s x, loop step 0 l s0 = Ok s
              /\ step (length l) r (s.1.1, s.1.2) = Ok x
              /\ s' = (x.1.1, x.1.2, s.2 ++ [x.2]).
Proof.
  rewrite loop_app. intros (s & Hs & H)%rbind_Ok. simpl in H.
  apply rbind_Ok in H as (x & Hx & H). exists s, x. by simplify_eq.
Qed.

(** Induction on a pass that completes, row by row. *)
Lemma loop_ind {St} (step : nat -> row -> St * db -> res (St * db * list event))
    (P : list row -> St * db * list (list event) -> Prop) s0 :
  P [] s0 ->
  (forall l r s x,
      loop step 0 l s0 = Ok s -> P l s ->
      step (length l) r (s.1.1, s.1.2) = Ok x ->
      P (l ++ [r]) (x.1.1, x.1.2, s.2 ++ [x.2])) ->
  forall rs s, loop step 0 rs s0 = Ok s -> P rs s.
Proof.
  intros H0 Hstep rs. induction rs as [|r l IH] using rev_ind; intros s Hs.
  - simpl in Hs. by simplify_eq.
  - apply loop_snoc in Hs as (s1 & x & Hl & Hx & ->). eauto.
Qed.

(** A pass that gets through a list gets through each of its prefixes. *)
Lemma loop_take {St} (step : nat -> row -> St * db -> res (St * db * list event))
    (rs : list row) (n : nat) s0 s :
  loop step 0 rs s0 = Ok s -> exists s1, loop step 0 (take n rs) s0 = Ok s1.
Proof.
  rewrite <- (take_drop n rs) at 1. rewrite loop_app.
  intros (s1 & Hs1 & _)%rbind_Ok. eauto.
Qed.

Lemma loop_journal_length {St}
    (step : nat -> row -> St * db -> res (St * db * list event)) rs s0 s :
  loop step 0 rs s0 = Ok s -> length s.2 = (length s0.2 + length rs)%nat.
Proof.
  revert rs s.
  apply (loop_ind step (fun rs s => length s.2 = (length s0.2 + length rs)%nat)).
  - simpl. lia.
  - intros l r s x _ IH _. simpl. rewrite !length_app, IH. simpl. lia.
Qed.

Lemma final_commit_Ok {St} (s : St * db * list (list event)) s' :
  final_commit s = Ok s' -> s'.1.1 = s.1.1 /\ s'.2 = s.2.
Proof.
  unfold final_commit. destruct (commit s.1.2) as [[] d]; intros; by simplify_eq.
Qed.

(** *** One iteration of the order loop *)

Lemma batch_commit_Ok count batch_size d ok d' evs :
  batch_commit count batch_size d = Ok (ok, d', evs) ->
  (ok = true /\ d' = d /\ evs = []) \/ (commit d = (ok, d') /\ evs = [Commit ok]).
Proof.
  unfold batch_commit. destruct (batch_size =? 0); [done|].
  destruct (_ =? 0); [|intros; simplify_eq; by left].
  destruct (commit d) as [ok' d'']. intros; simplify_eq. by right.
Qed.

(** The three ways an iteration of the order loop ends. *)
Lemma order_row_Ok customer_map product_map batch_size idx r st d x :
  order_row customer_map product_map batch_size idx r (st, d) = Ok x ->
  exists source_id,
    source_customer_id r = Ok source_id /\
    let c := source_id ≫= (customer_map !!.) in
    let p := order_product_name r ≫= (product_map !!.) in
    let lookups := [CustomerGet source_id; ProductGet (order_product_name r)] in
    (truthy c = false /\ x = (bump_no_customer st, d, lookups))
    \/ (truthy c = true /\ truthy p = false
        /\ x = (bump_no_product st, d, lookups))
    \/ (truthy c = true /\ truthy p = true /\
        exists ps y d1,
          order_params r (default 0 c) (default 0 p) = Ok ps /\
          execute d {| into := Orders; params := ps |} = (y, d1) /\
          let q := {| into := Orders; params := ps |} in
          ((y = Failed /\ x = (bump_error st, d1, lookups ++ [Execute q Failed]))
           \/ (y <> Failed /\
               exists ok d2 evs,
                 batch_commit (processed (after_reply idx y st)) batch_size d1
                 = Ok (ok, d2, evs) /\
                 x = (if ok then after_reply idx y st
                      else bump_error (after_reply idx y st),
                      d2, lookups ++ Execute q y :: evs)))).
Proof.
  unfold order_row. intros (source_id & Hsid & H)%rbind_Ok.
  exists source_id. split; [done|]. simpl in *.
  destruct (truthy (source_id ≫= _)); simpl in H.
  2:{ left. by simplify_eq. }
  destruct (truthy (order_product_name r ≫= _)); simpl in H.
  2:{ right; left. by simplify_eq. }
  right; right. split; [done|]. split; [done|].
  apply rbind_Ok in H as ([[st' d'] evs] & H & Hx). simplify_eq.
  unfold order_insert in H. apply rbind_Ok in H as (ps & Hps & H).
  exists ps. destruct (execute d _) as [y d1] eqn:Hexec. exists y, d1.
  split; [done|]. split; [done|].
  destruct y as [key| |].
  - right. split; [done|].
    apply rbind_Ok in H as ([[ok d2] evs'] & Hc & H). simplify_eq.
    by eexists _, _, _.
  - right. split; [done|].
    apply rbind_Ok in H as ([[ok d2] evs'] & Hc & H). simplify_eq.
    by eexists _, _, _.
  - left. by simplify_eq.
Qed.

Ltac in_events :=
  rewrite ?elem_of_app, ?elem_of_cons, ?elem_of_nil in *; naive_solver.

Ltac order_cases H :=
  let sid := fresh "source_id" in
  let Hsid := fresh "Hsid" in
  let Hc := fresh "Hc" in
  let Hp := fresh "Hp" in
  let Hbc := fresh "Hbc" in
  apply order_row_Ok in H
    as (sid & Hsid &
        [(Hc & ->)
        |[(Hc & Hp & ->)
         |(Hc & Hp & ?ps & ?y & ?d1 & ?Hps & ?Hexec &
           [(-> & ->)|(?Hy & ?ok & ?d2 & ?evs & Hbc & ->)])]]);
  [ | | | apply batch_commit_Ok in Hbc as [(-> & -> & ->)|(?Hcommit & ->)] ];
  simpl in *.

Lemma truthy_Some (k : option Z) :
  truthy k = true <-> exists z, k = Some z /\ z <> 0.
Proof.
  destruct k as [z|]; simpl.
  - rewrite negb_true_iff, Z.eqb_neq. naive_solver.
  - naive_solver.
Qed.

Lemma truthy_lookup {K} `{Countable K} (m : gmap K Z) (k : option K) :
  truthy (k ≫= (m !!.)) = true ->
  exists k' z, k = Some k' /\ m !! k' = Some z /\ z <> 0.
Proof.
  intros (z & Hz & Hnz)%truthy_Some. destruct k as [k'|]; [|done].
  simpl in Hz. eauto.
Qed.

(** An iteration leaves the entries of the other positions alone. *)
Lemma order_row_other customer_map product_map batch_size idx r st d x i :
  order_row customer_map product_map batch_size idx r (st, d) = Ok x ->
  i <> idx -> order_map x.1.1 !! i = order_map st !! i.
Proof.
  intros H Hi. order_cases H; try done;
    destruct y; try destruct ok; simpl; by rewrite ?lookup_insert_ne.
Qed.

(** The position of an iteration enters the key map exactly when its
    statement was sent and a key came back. *)
Lemma order_row_key customer_map product_map batch_size idx r st d x key :
  order_row customer_map product_map batch_size idx r (st, d) = Ok x ->
  order_map st !! idx = None ->
  order_map x.1.1 !! idx = Some key <->
  exists source_id name q,
    source_customer_id r = Ok (Some source_id)
    /\ is_Some (customer_map !! source_id)
    /\ order_product_name r = Some name
    /\ is_Some (product_map !! name)
    /\ Execute q (Fetched key) ∈ x.2.
Proof.
  intros H Hnone. order_cases H.
  - rewrite Hnone. split; [done|].
    intros (? & ? & ? & _ & _ & _ & _ & Hin). in_events.
  - rewrite Hnone. split; [done|].
    intros (? & ? & ? & _ & _ & _ & _ & Hin). in_events.
  - rewrite Hnone. split; [done|].
    intros (? & ? & ? & _ & _ & _ & _ & Hin). in_events.
  - apply truthy_lookup in Hc as (sid & cid & -> & Hcid & _).
    apply truthy_lookup in Hp as (name & pid & Hname & Hpid & _).
    destruct y as [key'| |]; simpl; [|rewrite Hnone|done].
    + rewrite lookup_insert_eq. split.
      * intros ?; simplify_eq. eexists sid, name, _.
        repeat split; eauto. in_events.
      * intros (? & ? & ? & _ & _ & _ & _ & Hin). in_events.
    + split; [done|].
      intros (? & ? & ? & _ & _ & _ & _ & Hin). in_events.
  - apply truthy_lookup in Hc as (sid & cid & -> & Hcid & _).
    apply truthy_lookup in Hp as (name & pid & Hname & Hpid & _).
    assert (order_map (if ok then after_reply idx y st
                       else bump_error (after_reply idx y st))
            = order_map (after_reply idx y st)) as -> by by destruct ok.
    destruct y as [key'| |]; simpl; [|rewrite Hnone|done].
    + rewrite lookup_insert_eq. split.
      * intros ?; simplify_eq. eexists sid, name, _.
        repeat split; eauto. in_events.
      * intros (? & ? & ? & _ & _ & _ & _ & Hin). in_events.
    + split; [done|].
      intros (? & ? & ? & _ & _ & _ & _ & Hin). in_events.
Qed.

(** What the two lookups of the order loop look up. *)
Lemma source_customer_id_Some r source_id :
  source_customer_id r = Ok (Some source_id)
  <-> notna (get r "Customer Id") = true
      /\ py_int (get r "Customer Id") = Ok source_id.
Proof.
  unfold source_customer_id, item, get, notna.
  destruct (r !! "Customer Id") as [v|]; simpl; [|naive_solver].
  destruct (isna v); simpl; [naive_solver|].
  destruct (py_int v); simpl; naive_solver.
Qed.

Lemma order_product_name_iff r name :
  order_product_name r = Some name
  <-> notna (get r "Product Name") = true
      /\ name = strip (py_str (get r "Product Name")).
Proof.
  unfold order_product_name, get_or, get, notna.
  destruct (r !! "Product Name") as [v|]; simpl; [|naive_solver].
  destruct (isna v); simpl; naive_solver.
Qed.





(** *** The order pass *)

Lemma lookup_snoc_last {A} (l : list A) (x : A) :
  (l ++ [x]) !! length l = Some x.
Proof. by rewrite lookup_app_r, Nat.sub_diag by lia. Qed.

Lemma lookup_snoc_before {A} (l : list A) (x y : A) (i : nat) :
  i <> length l -> (l ++ [x]) !! i = Some y <-> l !! i = Some y.
Proof.
  intros Hi. rewrite lookup_snoc_Some. split.
  - intros [[_ ?]|[? _]]; [done|lia].
  - intros H. left. split; [by eapply lookup_lt_Some|done].
Qed.

(** The key map of a pass, read off its rows and its journal. *)
Lemma order_loop_keys customer_map product_map batch_size d0 rs s :
  loop (order_row customer_map product_map batch_size) 0 rs
    (order_state0, d0, []) = Ok s ->
  length s.2 = length rs /\
  forall idx key,
    order_map s.1.1 !! idx = Some key <->
    exists r source_id name evs q,
      rs !! idx = Some r
      /\ source_customer_id r = Ok (Some source_id)
      /\ is_Some (customer_map !! source_id)
      /\ order_product_name r = Some name
      /\ is_Some (product_map !! name)
      /\ s.2 !! idx = Some evs
      /\ Execute q (Fetched key) ∈ evs.
Proof.
  revert rs s. apply (loop_ind _ (fun rs s => length s.2 = length rs /\ _)).
  - split; [done|]. intros idx key. simpl. rewrite lookup_empty.
    split; [done|]. by intros (r & ? & ? & ? & ? & Hr & _).
  - intros l r [[st d] j] x _ [Hlen IH] Hx. simpl in *.
    split; [rewrite !length_app, Hlen; simpl; lia|].
    assert (order_map st !! length l = None) as Hnone.
    { destruct (order_map st !! length l) as [key|] eqn:E; [|done].
      apply IH in E as (r' & ? & ? & ? & ? & Hr' & _).
      apply lookup_lt_Some in Hr'. lia. }
    intros idx key. destruct (decide (idx = length l)) as [->|Hne].
    + rewrite (order_row_key _ _ _ _ _ _ _ _ _ Hx Hnone).
      split.
      * intros (sid & name & q & ? & ? & ? & ? & ?).
        exists r, sid, name, x.2, q. rewrite lookup_snoc_last.
        rewrite <- Hlen, lookup_snoc_last. done.
      * intros (r' & sid & name & evs & q & Hr' & ? & ? & ? & ? & Hevs & ?).
        rewrite lookup_snoc_last in Hr'.
        rewrite <- Hlen, lookup_snoc_last in Hevs. simplify_eq.
        by exists sid, name, q.
    + rewrite (order_row_other _ _ _ _ _ _ _ _ _ Hx Hne), IH.
      split.
      * intros (r' & sid & name & evs & q & Hr' & ? & ? & ? & ? & Hevs & ?).
        exists r', sid, name, evs, q.
        rewrite !lookup_snoc_before by lia. done.
      * intros (r' & sid & name & evs & q & Hr' & ? & ? & ? & ? & Hevs & ?).
        exists r', sid, name, evs, q. simpl in Hevs.
        rewrite lookup_snoc_before in Hr' by lia.
        rewrite lookup_snoc_before in Hevs by lia. done.
Qed.

Lemma length_filter_snoc {A} (P : A -> Prop) `{forall x, Decision (P x)}
    (l : list A) (x : A) :
  length (filter P (l ++ [x]))
  = (length (filter P l) + if decide (P x) then 1 else 0)%nat.
Proof.
  rewrite filter_app, length_app. f_equal.
  rewrite filter_cons, filter_nil. by destruct (decide (P x)).
Qed.

(** What one iteration adds to the tallies. *)
Lemma order_row_tallies customer_map product_map batch_size idx r st d x :
  order_row customer_map product_map batch_size idx r (st, d) = Ok x ->
  order_map st !! idx = None ->
  (processed x.1.1 + size (order_map st)
   = processed st + size (order_map x.1.1))%nat
  /\ no_customer x.1.1
     = (no_customer st + if customer_fails customer_map r then 1 else 0)%nat
  /\ no_product x.1.1
     = (no_product st
        + if negb (customer_fails customer_map r)
             && product_fails product_map r then 1 else 0)%nat
  /\ error x.1.1 = (error st + if db_error x.2 then 1 else 0)%nat.
Proof.
  intros H Hnone. unfold customer_fails, product_fails.
  order_cases H; rewrite Hsid, Hc, ?Hp; simpl.
  - repeat split; lia.
  - repeat split; lia.
  - repeat split; lia.
  - destruct y as [key| |]; simpl; [|repeat split; lia|done].
    rewrite map_size_insert_None by done. repeat split; lia.
  - destruct y as [key| |], ok; simpl; try done;
      rewrite ?map_size_insert_None by done; repeat split; lia.
Qed.

(** The journal of a row that the customer check sends away. *)
Lemma order_row_no_customer customer_map product_map batch_size idx r st d x :
  order_row customer_map product_map batch_size idx r (st, d) = Ok x ->
  customer_fails customer_map r = true ->
  exists source_id,
    source_customer_id r = Ok source_id
    /\ x.2 = [CustomerGet source_id; ProductGet (order_product_name r)].
Proof.
  intros H. unfold customer_fails.
  order_cases H; rewrite Hsid, Hc; simpl; try done. eauto.
Qed.

Lemma order_loop_fresh customer_map product_map batch_size d0 rs s :
  loop (order_row customer_map product_map batch_size) 0 rs
    (order_state0, d0, []) = Ok s ->
  order_map s.1.1 !! length rs = None.
Proof.
  intros [_ Hkeys]%order_loop_keys.
  destruct (order_map s.1.1 !! length rs) as [key|] eqn:E; [|done].
  apply Hkeys in E as (r & ? & ? & ? & ? & Hr & _).
  apply lookup_lt_Some in Hr. lia.
Qed.


(** The tallies of a pass, read off its rows and its journal. *)
Lemma order_loop_tallies customer_map product_map batch_size d0 rs s :
  loop (order_row customer_map product_map batch_size) 0 rs
    (order_state0, d0, []) = Ok s ->
  processed s.1.1 = size (order_map s.1.1)
  /\ no_customer s.1.1 = length (filter (customer_fails customer_map) rs)
  /\ no_product s.1.1
     = length (filter (fun r => negb (customer_fails customer_map r)
                                && product_fails product_map r) rs)
  /\ error s.1.1 = length (filter db_error s.2).
Proof.
  revert rs s. apply (loop_ind _ (fun rs s => _ /\ _ /\ _ /\ _)).
  - done.
  - intros l r [[st d] j] x Hl (IH1 & IH2 & IH3 & IH4) Hx. simpl in *.
    apply order_loop_fresh in Hl. simpl in Hl.
    destruct (order_row_tallies _ _ _ _ _ _ _ _ Hx Hl) as (H1 & H2 & H3 & H4).
    rewrite !length_filter_snoc, H2, H3, H4, <- IH2, <- IH3, <- IH4.
    repeat split; try lia.
    + by destruct (customer_fails _ r).
    + by destruct (negb _ && _).
    + by destruct (db_error _).
Qed.

Lemma import_orders_Ok df customer_map product_map batch_size d st d' journal :
  import_orders df customer_map product_map batch_size d
  = Ok (st, d', journal) ->
  exists d1,
    loop (order_row customer_map product_map batch_size) 0 (iterrows df)
      (order_state0, d, []) = Ok (st, d1, journal).
Proof.
  unfold import_orders. intros ([[st1 d1] j1] & Hloop & Hc)%rbind_Ok.
  apply final_commit_Ok in Hc as [? ?]. simpl in *. subst. eauto.
Qed.

Lemma order_loop_no_customer customer_map product_map batch_size d0 rs s :
  loop (order_row customer_map product_map batch_size) 0 rs
    (order_state0, d0, []) = Ok s ->
  forall idx r,
    rs !! idx = Some r -> customer_fails customer_map r = true ->
    exists source_id,
      source_customer_id r = Ok source_id
      /\ s.2 !! idx
         = Some [CustomerGet source_id; ProductGet (order_product_name r)].
Proof.
  revert rs s. apply (loop_ind _ (fun rs s => forall idx r, _ -> _ -> _)).
  - by intros idx r ?.
  - intros l r [[st d] j] x Hl IH Hx idx r' Hr' Hfail. simpl in *.
    apply loop_journal_length in Hl. simpl in Hl.
    destruct (decide (idx = length l)) as [->|Hne].
    + rewrite lookup_snoc_last in Hr'. simplify_eq.
      destruct (order_row_no_customer _ _ _ _ _ _ _ _ Hx Hfail)
        as (sid & ? & Hevs).
      exists sid. split; [done|].
      by rewrite <- Hl, lookup_snoc_last, Hevs.
    + rewrite lookup_snoc_before in Hr' by done.
      destruct (IH idx r' Hr' Hfail) as (sid & ? & ?).
      exists sid. split; [done|]. rewrite lookup_snoc_before by lia. done.
Qed.

(** With a sink that answers every insert with a key or an error and
    whose commits go through, an iteration fills one bucket. *)
Lemma order_row_one_bucket customer_map product_map batch_size idx r st d x :
  (forall d q, (execute d q).1 <> NoRow) ->
  (forall d, (commit d).1 = true) ->
  order_row customer_map product_map batch_size idx r (st, d) = Ok x ->
  order_map st !! idx = None ->
  (no_customer x.1.1 + no_product x.1.1 + error x.1.1
   + size (order_map x.1.1))%nat
  = S (no_customer st + no_product st + error st + size (order_map st)).
Proof.
  intros Hrow Hcommit H Hnone. order_cases H; try lia.
  - pose proof (Hrow d {| into := Orders; params := ps |}) as Hy'.
    rewrite Hexec in Hy'. destruct y; simpl in *; try done.
    rewrite map_size_insert_None by done. lia.
  - pose proof (Hrow d {| into := Orders; params := ps |}) as Hy'.
    rewrite Hexec in Hy'. pose proof (Hcommit d1) as Hok.
    rewrite Hcommit0 in Hok. simpl in Hok. subst ok.
    destruct y; simpl in *; try done.
    rewrite map_size_insert_None by done. lia.
Qed.

(** *** One iteration of the shipping loop *)

Lemma shipping_params_head r order_id ps :
  shipping_params r order_id = Ok ps -> exists rest, ps = IntV order_id :: rest.
Proof.
  unfold shipping_params.
  intros (? & _ & (? & _ & (? & _ & ?)%rbind_Ok)%rbind_Ok)%rbind_Ok.
  simplify_eq. eauto.
Qed.

(** The two ways an iteration of the shipping loop ends. *)
Lemma shipping_row_Ok omap batch_size idx r s x :
  shipping_row omap batch_size idx r s = Ok x ->
  (truthy (omap !! idx) = false /\ x = (s.1.1, S s.1.2, s.2, [OrderGet idx]))
  \/ (exists key rest y d1,
        omap !! idx = Some key /\ key <> 0 /\
        let q := {| into := ShippingDetails; params := IntV key :: rest |} in
        execute s.2 q = (y, d1) /\
        ((y = Failed
          /\ x = (s.1.1, S s.1.2, d1, [OrderGet idx; Execute q Failed]))
         \/ (y <> Failed /\
             exists ok d2 evs,
               batch_commit (S s.1.1) batch_size d1 = Ok (ok, d2, evs) /\
               x = (S s.1.1, if ok then s.1.2 else S s.1.2, d2,
                    OrderGet idx :: Execute q y :: evs)))).
Proof.
  unfold shipping_row. destruct (truthy (omap !! idx)) eqn:Ht; simpl.
  2:{ intros ?; simplify_eq. by left. }
  apply truthy_Some in Ht as (key & Hkey & Hnz). rewrite Hkey. simpl.
  intros (ps & Hps & H)%rbind_Ok. right.
  apply shipping_params_head in Hps as (rest & ->).
  destruct (execute s.2 _) as [y d1] eqn:Hexec.
  exists key, rest, y, d1. repeat split; [done..|].
  destruct y as [k| |].
  - right. split; [done|].
    apply rbind_Ok in H as ([[ok d2] evs] & Hc & H). simplify_eq.
    by eexists _, _, _.
  - right. split; [done|].
    apply rbind_Ok in H as ([[ok d2] evs] & Hc & H). simplify_eq.
    by eexists _, _, _.
  - left. by simplify_eq.
Qed.

Ltac shipping_cases H :=
  let Hbc := fresh "Hbc" in
  apply shipping_row_Ok in H
    as [(?Ht & ->)
       |(?key & ?rest & ?y & ?d1 & ?Hkey & ?Hnz & ?Hexec &
         [(-> & ->)|(?Hy & ?ok & ?d2 & ?evs & Hbc & ->)])];
  [ | | apply batch_commit_Ok in Hbc as [(-> & -> & ->)|(?Hcommit & ->)] ];
  simpl in *.

(** A statement of an iteration carries the key the map holds for the
    position, which is not zero. *)
Lemma shipping_row_statement omap batch_size idx r s x q y :
  shipping_row omap batch_size idx r s = Ok x ->
  Execute q y ∈ x.2 ->
  exists key rest,
    omap !! idx = Some key /\ key <> 0
    /\ q = {| into := ShippingDetails; params := IntV key :: rest |}.
Proof.
  intros H Hin. shipping_cases H.
  - in_events.
  - exists key, rest. in_events.
  - exists key, rest. in_events.
  - exists key, rest. in_events.
Qed.

Lemma shipping_row_skipped omap batch_size idx r s x :
  shipping_row omap batch_size idx r s = Ok x ->
  x.1.1.2 = (s.1.2 + (if truthy (omap !! idx) then 0 else 1)
             + if db_error x.2 then 1 else 0)%nat
  /\ (truthy (omap !! idx) = false -> x.2 = [OrderGet idx]).
Proof.
  intros H. shipping_cases H.
  - rewrite Ht. split; [lia|done].
  - rewrite Hkey. simpl. destruct (key =? 0) eqn:E; [lia|]. simpl.
    split; [lia|done].
  - rewrite Hkey. simpl. destruct (key =? 0) eqn:E; [lia|]. simpl.
    destruct y; try done; simpl; split; (lia || done).
  - rewrite Hkey. simpl. destruct (key =? 0) eqn:E; [lia|]. simpl.
    destruct y, ok; try done; simpl; split; (lia || done).
Qed.

(** The shipping pass, read off its journal. *)
Lemma shipping_loop_journal omap batch_size d0 rs s :
  loop (shipping_row omap batch_size) 0 rs (0%nat, 0%nat, d0, []) = Ok s ->
  length s.2 = length rs
  /\ (forall idx evs q y,
        s.2 !! idx = Some evs -> Execute q y ∈ evs ->
        exists key rest,
          omap !! idx = Some key /\ key <> 0
          /\ q = {| into := ShippingDetails; params := IntV key :: rest |})
  /\ (forall idx,
        (idx < length rs)%nat -> truthy (omap !! idx) = false ->
        s.2 !! idx = Some [OrderGet idx])
  /\ s.1.1.2
     = (length (filter (fun idx => negb (truthy (omap !! idx)))
                  (seq 0 (length rs)))
        + length (filter db_error s.2))%nat.
Proof.
  revert rs s. apply (loop_ind _ (fun rs s => _ /\ _ /\ _ /\ _)).
  - split; [done|]. split; [|split; [|done]].
    + intros idx evs q y Hj. simpl in Hj. by rewrite lookup_nil in Hj.
    + intros idx ?. simpl in *. lia.
  - intros l r [[[shipped skipped] d] j] x _ (Hlen & Hst & Habs & Hcount) Hx.
    simpl in *.
    destruct (shipping_row_skipped _ _ _ _ _ _ Hx) as [Hsk Hevs]. simpl in *.
    split; [rewrite !length_app, Hlen; simpl; lia|]. split; [|split].
    + intros idx evs q y Hj Hin.
      destruct (decide (idx = length j)) as [->|Hne].
      * rewrite lookup_snoc_last in Hj. simplify_eq. rewrite Hlen.
        eapply shipping_row_statement; eauto.
      * rewrite lookup_snoc_before in Hj by done. eauto.
    + intros idx Hidx Ht. rewrite length_app in Hidx. simpl in Hidx.
      destruct (decide (idx = length l)) as [->|Hne].
      * rewrite <- Hlen, lookup_snoc_last, Hlen. f_equal. auto.
      * rewrite lookup_snoc_before by lia. apply Habs; [lia|done].
    + rewrite length_app. simpl. rewrite seq_app. simpl.
      rewrite !length_filter_snoc, Hsk, Hcount.
      destruct (truthy (omap !! length l)), (db_error x.2); simpl; lia.
Qed.

(** *** Integers as floats *)

Lemma iter_pos_inv {A} (f : A -> A) (P : A -> Prop) :
  (forall x, P x -> P (f x)) -> forall p x, P x -> P (SpecFloat.iter_pos f p x).
Proof. intros Hf. induction p; simpl; auto. Qed.

Lemma shr_1_nonneg mrs : 0 <= shr_m mrs -> 0 <= shr_m (shr_1 mrs).
Proof. destruct mrs as [[|[]|[]] r s]; simpl; lia. Qed.

Lemma shr_fexp_nonneg prec emax m e l :
  0 <= m -> 0 <= shr_m (shr_fexp prec emax m e l).1.
Proof.
  intros Hm. unfold shr_fexp, shr.
  assert (0 <= shr_m (shr_record_of_loc m l)) as H0
    by by destruct l as [|[]].
  destruct (_ - e); simpl; try done.
  by apply (iter_pos_inv shr_1 (fun mrs => 0 <= shr_m mrs)), H0;
    apply shr_1_nonneg.
Qed.

Lemma round_nearest_even_nonneg m l : 0 <= m -> 0 <= round_nearest_even m l.
Proof.
  intros Hm. destruct l as [|[]]; simpl; try lia.
  destruct (Z.even m); lia.
Qed.

(** Rounding an integer to a float gives a number or an infinity. *)
Lemma binary_normalize_not_nan z :
  binary_normalize 53 1024 z 0 false <> S754_nan.
Proof.
  assert (forall sx mx ex,
             0 <= mx -> binary_round_aux 53 1024 sx mx ex loc_Exact <> S754_nan)
    as Haux.
  { intros sx mx ex Hmx. unfold binary_round_aux.
    pose proof (shr_fexp_nonneg 53 1024 mx ex loc_Exact Hmx) as H1.
    destruct (shr_fexp 53 1024 mx ex loc_Exact) as [mrs1 e1]. simpl in H1.
    pose proof (shr_fexp_nonneg 53 1024 _ e1 loc_Exact
                  (round_nearest_even_nonneg _ (loc_of_shr_record mrs1) H1))
      as H2.
    destruct (shr_fexp 53 1024 _ e1 loc_Exact) as [mrs2 e2]. simpl in H2.
    destruct (shr_m mrs2); [done| |lia]. by destruct (_ <=? _). }
  unfold binary_normalize, binary_round. destruct z as [|m|m]; [done| |].
  - destruct (shl_align _ _ _). by apply Haux.
  - destruct (shl_align _ _ _). by apply Haux.
Qed.

(** *** Rows and deduplication *)

Lemma lookup_tabulate {A} (f : string -> A) (cols : list string) (c : string) :
  (list_to_map ((fun c => (c, f c)) <$> cols) : gmap string A) !! c
  = if decide (c ∈ cols) then Some (f c) else None.
Proof.
  induction cols as [|c' cols IH].
  - apply lookup_empty.
  - rewrite fmap_cons, list_to_map_cons, lookup_insert, IH. simpl.
    repeat case_decide; subst; try done;
      rewrite elem_of_cons in *; naive_solver.
Qed.

Lemma get_row_of df rec c :
  c ∈ columns df ->
  get (row_of df rec) c = store (dtype_of df c) (cell_at rec c).
Proof.
  intros Hc. unfold get, row_of. rewrite lookup_tabulate.
  by rewrite decide_True.
Qed.

Lemma get_select cols r c : c ∈ cols -> get (select cols r) c = get r c.
Proof.
  intros Hc. unfold get, select. destruct (r !! c) as [v|] eqn:E.
  - by rewrite (map_lookup_filter_Some_2 _ _ _ _ E).
  - by rewrite map_lookup_filter_None_2 by by left.
Qed.

Lemma lookup_select cols r c :
  select cols r !! c = if decide (c ∈ cols) then r !! c else None.
Proof.
  unfold select. case_decide as Hc.
  - destruct (r !! c) as [v|] eqn:E.
    + by rewrite (map_lookup_filter_Some_2 _ _ _ _ E).
    + by rewrite map_lookup_filter_None_2 by by left.
  - apply map_lookup_filter_None_2. right. by intros v _.
Qed.

Lemma lookup_rows df r c :
  r ∈ rows df -> c ∈ columns df -> r !! c = Some (get r c).
Proof.
  intros (rec & -> & _)%list_elem_of_fmap Hc. unfold get, row_of.
  rewrite lookup_tabulate. by rewrite decide_True.
Qed.

(** [iterrows] changes the values of a row, not its columns. *)
Lemma elem_of_iterrows_as ts rs r :
  r ∈ iterrows_as ts rs ->
  exists r0, r0 ∈ rs /\ (r = r0 \/ r = upcast_row r0).
Proof.
  unfold iterrows_as. destruct (common_dtype ts).
  - eauto.
  - intros (r0 & -> & ?)%list_elem_of_fmap. eauto.
  - eauto.
Qed.

Lemma lookup_upcast_row (r : row) c : upcast_row r !! c = upcast <$> r !! c.
Proof. unfold upcast_row. by rewrite lookup_fmap. Qed.

Lemma get_upcast_row (r : row) c : get (upcast_row r) c = upcast (get r c).
Proof. unfold get. rewrite lookup_upcast_row. by destruct (r !! c). Qed.

(** A row that [iterrows] hands over with an integer, or a text, in a
    column comes from a row that has it there. *)
Lemma iterrows_as_int ts rs r c z :
  r ∈ iterrows_as ts rs -> get r c = SInt z ->
  exists r0, r0 ∈ rs /\ get r0 c = SInt z.
Proof.
  intros (r0 & Hr0 & [-> | ->])%elem_of_iterrows_as Hget; [eauto|].
  rewrite get_upcast_row in Hget. by destruct (get r0 c).
Qed.

Lemma iterrows_as_text ts rs r c t :
  r ∈ iterrows_as ts rs -> get r c = SStr t ->
  exists r0, r0 ∈ rs /\ get r0 c = SStr t.
Proof.
  intros (r0 & Hr0 & [-> | ->])%elem_of_iterrows_as Hget; [eauto|].
  rewrite get_upcast_row in Hget. exists r0. split; [done|].
  by destruct (get r0 c).
Qed.

Lemma lookup_iterrows_as ts rs i r0 :
  rs !! i = Some r0 ->
  exists r, iterrows_as ts rs !! i = Some r /\ (r = r0 \/ r = upcast_row r0).
Proof.
  intros Hi. unfold iterrows_as. destruct (common_dtype ts); [eauto| |eauto].
  exists (upcast_row r0). rewrite list_lookup_fmap, Hi. eauto.
Qed.

Lemma lookup_iterrows df r c :
  r ∈ iterrows df -> c ∈ columns df -> r !! c = Some (get r c).
Proof.
  intros (r0 & Hr0 & Hr)%elem_of_iterrows_as Hc.
  pose proof (lookup_rows df r0 c Hr0 Hc) as H0.
  destruct Hr as [-> | ->]; [done|].
  unfold get. rewrite lookup_upcast_row, H0. done.
Qed.

Lemma length_iterrows_as ts rs : length (iterrows_as ts rs) = length rs.
Proof.
  unfold iterrows_as. destruct (common_dtype ts); by rewrite ?length_fmap.
Qed.

Lemma length_iterrows df : length (iterrows df) = length (records df).
Proof. unfold iterrows, rows. by rewrite length_iterrows_as, length_fmap. Qed.

Lemma get_group_first key cols rs k c :
  c ∈ cols ->
  get (group_first key cols rs k) c
  = if decide (c = key) then k else first_valid c (group_of key k rs).
Proof.
  intros Hc. unfold get, group_first. rewrite lookup_tabulate.
  by rewrite decide_True.
Qed.

(** *** Group keys *)

Lemma dyadic_KNum n e : exists n' e', dyadic n e = KNum n' e'.
Proof. destruct n as [|p|p]; simpl; [|destruct (odd_part p)..]; eauto. Qed.

Lemma isna_hash_key v :
  isna v = true <-> hash_key v = KNone \/ hash_key v = KNaN.
Proof.
  destruct v as [|[s|s| |s m e]|z|t]; simpl; try (split; [auto|done]);
    try (split; [done|intros [?|?]; done]).
  - destruct (dyadic_KNum (cond_Zopp s (Z.pos m)) e) as (? & ? & ->).
    split; [done|intros [?|?]; done].
  - destruct (dyadic_KNum z 0) as (? & ? & ->).
    split; [done|intros [?|?]; done].
Qed.

(** Keys that are the same are present or absent together. *)
Lemma hash_key_notna a b : hash_key a = hash_key b -> notna a = notna b.
Proof.
  intros E. unfold notna. f_equal.
  destruct (isna a) eqn:Ha, (isna b) eqn:Hb; try done.
  - apply isna_hash_key in Ha. rewrite E in Ha. apply isna_hash_key in Ha.
    congruence.
  - apply isna_hash_key in Hb. rewrite <- E in Hb. apply isna_hash_key in Hb.
    congruence.
Qed.

Lemma hash_key_text v t : hash_key v = KStr t -> v = SStr t.
Proof.
  destruct v as [|[s|s| |s m e]|z|t']; simpl; try done.
  - by destruct (dyadic_KNum (cond_Zopp s (Z.pos m)) e) as (? & ? & ->).
  - by destruct (dyadic_KNum z 0) as (? & ? & ->).
  - by intros ?; simplify_eq.
Qed.

Lemma odd_part_spec p :
  0 <= (odd_part p).2 /\ Zpos p = Zpos (odd_part p).1 * 2 ^ (odd_part p).2.
Proof.
  induction p as [p IH|p IH|]; simpl; [split; [done|lia]| |split; [done|lia]].
  destruct (odd_part p) as [q k]; simpl in *. destruct IH as [Hk Hp].
  split; [lia|]. rewrite Z.pow_add_r, Z.pow_1_r by lia.
  rewrite Pos2Z.inj_xO, Hp. ring.
Qed.

(** Two numbers with the same odd part and exponents that differ by [e]
    differ by the factor [2^e]. *)
Lemma shiftl_odd_part p p' e :
  (odd_part p).1 = (odd_part p').1 ->
  e + (odd_part p).2 = (odd_part p').2 ->
  Z.shiftl (Zpos p) e = Zpos p'.
Proof.
  destruct (odd_part_spec p) as [Hk Hp], (odd_part_spec p') as [Hj Hp'].
  destruct (odd_part p) as [q k], (odd_part p') as [q' j]; simpl in *.
  intros <- He. rewrite Hp, Hp'. destruct (decide (0 <= e)) as [Hpos|Hneg].
  - rewrite Z.shiftl_mul_pow2 by done. rewrite <- He, Z.pow_add_r by lia. ring.
  - rewrite Z.shiftl_div_pow2 by lia.
    replace k with (j + - e) by lia. rewrite Z.pow_add_r by lia.
    rewrite Z.mul_assoc, Z.div_mul; [done|].
    apply Z.pow_nonzero; lia.
Qed.

Lemma dyadic_shiftl (s : bool) p e z :
  dyadic (cond_Zopp s (Zpos p)) e = dyadic z 0 ->
  cond_Zopp s (Z.shiftl (Zpos p) e) = z.
Proof.
  pose proof (shiftl_odd_part p) as Hs.
  destruct s, z as [|p'|p']; simpl;
    try specialize (Hs p' e);
    destruct (odd_part p) as [q k]; try destruct (odd_part p') as [q' j];
    simpl in *; intros [= ? ?]; subst;
    rewrite Hs by (done || lia); done.
Qed.

(** A value that is the same key as the integer [z] reads as [z]. *)
Lemma hash_key_int v z : hash_key v = hash_key (SInt z) -> py_int v = Ok z.
Proof.
  destruct (dyadic_KNum z 0) as (n & e & Hz).
  destruct v as [|[s|s| |s m e']|z'|t]; simpl; rewrite ?Hz; try done.
  - rewrite <- Hz. destruct z as [|p|p]; simpl; [done|..];
      by destruct (odd_part p).
  - rewrite <- Hz. intros H%dyadic_shiftl. by rewrite H.
  - rewrite <- Hz. destruct z' as [|p|p].
    + destruct z as [|p'|p']; simpl; [done|..]; by destruct (odd_part p').
    + intros H%(dyadic_shiftl false). simpl in H. by rewrite <- H.
    + intros H%(dyadic_shiftl true). simpl in H. by rewrite <- H.
Qed.

Lemma elem_of_uniques_from seen l x :
  x ∈ uniques_from seen l -> x ∈ l /\ hash_key x ∉ seen.
Proof.
  revert seen. induction l as [|k l IH]; intros seen; simpl.
  - by intros ?%elem_of_nil.
  - case_decide as Hk.
    + intros [? ?]%IH. split; [by right|done].
    + intros [->|[? Hn]%IH]%elem_of_cons.
      * split; [left|done].
      * split; [by right|]. intros ?. apply Hn. by right.
Qed.

Lemma NoDup_uniques_from seen l : NoDup (hash_key <$> uniques_from seen l).
Proof.
  revert seen. induction l as [|k l IH]; intros seen; simpl; [constructor|].
  case_decide as Hk; [apply IH|]. rewrite fmap_cons. constructor; [|apply IH].
  intros (x & Hx & Hin)%list_elem_of_fmap.
  apply elem_of_uniques_from in Hin as [_ Hn]. apply Hn. rewrite <- Hx. left.
Qed.

Lemma hash_key_in_uniques_from seen l x :
  x ∈ l -> hash_key x ∉ seen ->
  hash_key x ∈ hash_key <$> uniques_from seen l.
Proof.
  revert seen. induction l as [|k l IH]; intros seen Hx Hseen.
  - by apply elem_of_nil in Hx.
  - simpl. apply elem_of_cons in Hx as [->|Hx].
    + rewrite decide_False by done. rewrite fmap_cons. left.
    + case_decide as Hk; [by apply IH|]. rewrite fmap_cons.
      destruct (decide (hash_key x = hash_key k)) as [->|Hne]; [left|].
      right. apply IH; [done|]. by intros [?|?]%elem_of_cons.
Qed.

(** A key of [uniques] is the first of the list that is that key. *)
Lemma uniques_from_first seen l u :
  u ∈ uniques_from seen l ->
  exists i,
    l !! i = Some u
    /\ forall j x, (j < i)%nat -> l !! j = Some x -> hash_key x <> hash_key u.
Proof.
  revert seen. induction l as [|k l IH]; intros seen; simpl.
  - by intros ?%elem_of_nil.
  - case_decide as Hk.
    + intros Hu. pose proof (elem_of_uniques_from _ _ _ Hu) as [_ Hn].
      destruct (IH _ Hu) as (i & Hi & Hlt). exists (S i). split; [done|].
      intros [|j] x Hj Hx; simpl in Hx.
      * simplify_eq. by intros E; rewrite E in Hk.
      * apply (Hlt j); [lia|done].
    + intros [->|Hu]%elem_of_cons.
      * exists 0%nat. split; [done|]. intros; lia.
      * pose proof (elem_of_uniques_from _ _ _ Hu) as [_ Hn].
        destruct (IH _ Hu) as (i & Hi & Hlt). exists (S i). split; [done|].
        intros [|j] x Hj Hx; simpl in Hx.
        -- simplify_eq. intros E. apply Hn. rewrite E. left.
        -- apply (Hlt j); [lia|done].
Qed.

(** A group key is a present value of the key column. *)
Lemma elem_of_group_keys key rs k :
  k ∈ group_keys key rs ->
  notna k = true /\ exists r, r ∈ rs /\ get r key = k.
Proof.
  unfold group_keys, uniques. rewrite merge_sort_Permutation.
  intros [Hk _]%elem_of_uniques_from.
  apply list_elem_of_filter in Hk as [Hk Hin].
  apply list_elem_of_fmap in Hin. naive_solver.
Qed.

(** Every present value of the key column has its group key. *)
Lemma group_keys_complete key rs r :
  r ∈ rs -> notna (get r key) = true ->
  exists k, k ∈ group_keys key rs /\ hash_key k = hash_key (get r key).
Proof.
  intros Hr Hk.
  assert (hash_key (get r key)
          ∈ hash_key <$> uniques (filter (fun v => notna v = true)
                                    ((fun r => get r key) <$> rs))) as Hin.
  { apply hash_key_in_uniques_from; [|by intros ?%elem_of_nil].
    apply list_elem_of_filter. split; [done|].
    by apply (list_elem_of_fmap_2 (fun r => get r key)). }
  apply list_elem_of_fmap in Hin as (k & Hk' & Hin). exists k. split; [|done].
  unfold group_keys. by rewrite merge_sort_Permutation.
Qed.

(** The group keys are pairwise different keys. *)
Lemma NoDup_group_hashes key rs : NoDup (hash_key <$> group_keys key rs).
Proof.
  unfold group_keys. rewrite merge_sort_Permutation. apply NoDup_uniques_from.
Qed.

Lemma NoDup_group_keys key rs : NoDup (group_keys key rs).
Proof. eapply NoDup_fmap_1, NoDup_group_hashes. Qed.

(** A text is a group key exactly when a row bears it. *)
Lemma elem_of_group_keys_text key rs t :
  SStr t ∈ group_keys key rs <-> exists r, r ∈ rs /\ get r key = SStr t.
Proof.
  split.
  - intros (_ & r & ? & ?)%elem_of_group_keys. eauto.
  - intros (r & Hr & Hget).
    destruct (group_keys_complete key rs r Hr) as (k & Hk & Hh);
      [by rewrite Hget|].
    rewrite Hget in Hh. apply hash_key_text in Hh. by subst.
Qed.

(** The first row of the group of a key bears the key as the group has
    it. *)
Lemma group_of_head key rs k :
  k ∈ group_keys key rs ->
  exists r g, group_of key k rs = r :: g /\ get r key = k.
Proof.
  intros Hk. pose proof (elem_of_group_keys _ _ _ Hk) as [Hna _].
  revert Hk. unfold group_keys, uniques. rewrite merge_sort_Permutation.
  intros (i & Hi & Hlt)%uniques_from_first. revert i Hi Hlt.
  induction rs as [|r rs IH]; intros i Hi Hlt; [done|].
  unfold group_of. rewrite fmap_cons, filter_cons in Hi, Hlt.
  rewrite filter_cons.
  destruct (decide (hash_key (get r key) = hash_key k)) as [E|E].
  - exists r, (group_of key k rs). split; [done|].
    rewrite (hash_key_notna _ _ E), Hna in Hi, Hlt.
    rewrite decide_True in Hi, Hlt by done.
    destruct i as [|i]; [simpl in Hi; congruence|].
    exfalso. by apply (Hlt 0%nat (get r key)); [lia|..].
  - destruct (decide (notna (get r key) = true)) as [Hr|Hr].
    + destruct i as [|i]; [simpl in Hi; congruence|].
      apply (IH i); [done|]. intros j x Hj Hx. apply (Hlt (S j)); [lia|done].
    + by apply (IH i).
Qed.

Lemma filter_fmap_swap {A B} (P : B -> Prop) `{forall b, Decision (P b)}
    (f : A -> B) (l : list A) :
  filter P (f <$> l) = f <$> filter (fun a => P (f a)) l.
Proof.
  induction l as [|a l IH]; [done|].
  rewrite fmap_cons, !filter_cons, IH.
  by destruct (decide (P (f a))).
Qed.

Lemma filter_none {A} (P : A -> Prop) `{forall a, Decision (P a)} (l : list A) :
  (forall a, a ∈ l -> ~ P a) -> filter P l = [].
Proof.
  induction l as [|a l IH]; intros Hl; [done|].
  rewrite filter_cons, decide_False by (apply Hl; left).
  apply IH. intros b Hb. apply Hl. by right.
Qed.

Lemma filter_fmap_unique_key {A B C} `{EqDecision C} (f : A -> B) (h : B -> C)
    (hA : A -> C) (l : list A) (c : C) (x : A) :
  (forall y, h (f y) = hA y) -> NoDup (hA <$> l) -> x ∈ l -> hA x = c ->
  filter (fun b => h b = c) (f <$> l) = [f x].
Proof.
  intros Hh Hnd Hx <-. rewrite filter_fmap_swap.
  induction l as [|y l IH]; [by apply elem_of_nil in Hx|].
  rewrite fmap_cons in Hnd. apply NoDup_cons in Hnd as [Hy Hnd].
  rewrite filter_cons, Hh. apply elem_of_cons in Hx as [->|Hx].
  - rewrite decide_True by done. rewrite filter_none; [done|].
    intros a Ha. rewrite Hh. intros E. apply Hy. rewrite <- E.
    by apply list_elem_of_fmap_2.
  - rewrite decide_False; [auto|]. intros E. apply Hy. rewrite E.
    by apply list_elem_of_fmap_2.
Qed.

(** The first present value of a column of a group, or the fill. *)
Lemma first_valid_spec c g :
  (exists i r,
      g !! i = Some r /\ notna (get r c) = true
      /\ (forall j r', (j < i)%nat -> g !! j = Some r' -> isna (get r' c) = true)
      /\ first_valid c g = get r c)
  \/ ((forall r, r ∈ g -> isna (get r c) = true)
      /\ first_valid c g = na_fill c).
Proof.
  unfold first_valid.
  destruct (list_find _ _) as [[i v]|] eqn:E; simpl.
  - apply list_find_Some in E as (Hi & Hv & Hlt). left.
    rewrite list_lookup_fmap in Hi.
    destruct (g !! i) as [r|] eqn:Hr; simplify_eq/=.
    exists i, r. split; [done|]. split; [done|]. split; [|done].
    intros j r' Hj Hr'. specialize (Hlt j (get r' c)).
    rewrite list_lookup_fmap, Hr' in Hlt. specialize (Hlt eq_refl Hj).
    unfold notna in Hlt. by destruct (isna (get r' c)).
  - apply list_find_None in E. right. split; [|done].
    intros r Hr. rewrite Forall_forall in E.
    specialize (E (get r c)). unfold notna in E.
    destruct (isna (get r c)); [done|]. destruct E; [|done].
    apply list_elem_of_fmap. eauto.
Qed.

(** A column absent in the whole group is absent in the canonical row. *)
Lemma first_valid_absent c g :
  (forall r, r ∈ g -> isna (get r c) = true) -> isna (first_valid c g) = true.
Proof.
  intros Hall.
  destruct (first_valid_spec c g) as [(i & r & Hi & Hr & _)|[_ ->]];
    [|apply na_fill_isna].
  apply list_elem_of_lookup_2 in Hi. apply Hall in Hi.
  unfold notna in Hr. by rewrite Hi in Hr.
Qed.

(** *** Canonical customers *)

Lemma elem_of_customer_columns df c :
  c ∈ customer_columns df <-> c ∈ customer_cols /\ c ∈ columns df.
Proof. unfold customer_columns. rewrite list_elem_of_filter. tauto. Qed.

Lemma id_in_customer_columns df :
  "Customer Id" ∈ columns df -> "Customer Id" ∈ customer_columns df.
Proof.
  intros H. apply elem_of_customer_columns. split; [|done].
  apply list_elem_of_here.
Qed.

(** The group of an id is made of the rows that bear it, in file order. *)
Lemma group_of_customers df k :
  "Customer Id" ∈ columns df -> notna k = true ->
  group_of "Customer Id" k (customers df)
  = select (customer_columns df) <$> bearing df k.
Proof.
  intros Hid Hk. unfold group_of, customers, bearing.
  rewrite list_filter_filter_l
    by (intros r E; by rewrite (hash_key_notna _ _ E)).
  rewrite filter_fmap_swap. f_equal. apply list_filter_iff. intros r.
  by rewrite get_select by by apply id_in_customer_columns.
Qed.

(** The canonical customers that bear an id some row bears are one
    row, the canonical row of the group key that is that id. *)
Lemma customers_unique_of_id df k :
  "Customer Id" ∈ columns df -> notna k = true -> bearing df k <> [] ->
  exists k',
    k' ∈ group_keys "Customer Id" (customers df)
    /\ hash_key k' = hash_key k
    /\ filter (fun r => hash_key (get r "Customer Id") = hash_key k)
         (customers_unique df)
       = [group_first "Customer Id" (customer_columns df) (customers df) k'].
Proof.
  intros Hid Hk Hne.
  destruct (bearing df k) as [|r rs] eqn:E; [done|].
  assert (r ∈ bearing df k) as Hr by (rewrite E; left).
  unfold bearing in Hr. apply list_elem_of_filter in Hr as [Hget Hr].
  destruct (group_keys_complete "Customer Id" (customers df)
              (select (customer_columns df) r)) as (k' & Hk' & Hh).
  { unfold customers. apply list_elem_of_filter.
    rewrite get_select by by apply id_in_customer_columns.
    split; [by rewrite (hash_key_notna _ _ Hget)|].
    by apply list_elem_of_fmap_2. }
  { rewrite get_select by by apply id_in_customer_columns.
    by rewrite (hash_key_notna _ _ Hget). }
  rewrite get_select in Hh by by apply id_in_customer_columns.
  exists k'. split; [done|]. split; [congruence|].
  unfold customers_unique, groupby_first.
  apply (filter_fmap_unique_key _ (fun r => hash_key (get r "Customer Id"))
           hash_key).
  - intros y. rewrite get_group_first by by apply id_in_customer_columns.
    by rewrite decide_True.
  - apply NoDup_group_hashes.
  - done.
  - congruence.
Qed.

(** *** The customer pass *)

(** An iteration of the customer loop leaves map and counter alone, or
    files the id of the row and counts it. *)
Lemma customer_row_spec r s :
  (customer_row r s).1.1 = s.1
  \/ exists z key,
       row_id r = Some z
       /\ (customer_row r s).1.1 = (<[z := key]> s.1.1, S s.1.2).
Proof.
  unfold customer_row, row_id.
  destruct (rbind (item r "Customer Id") py_int) as [z|e]; simpl; [|by left].
  destruct (customer_params r z) as [ps|e]; simpl; [|by left].
  destruct (execute s.2 _) as [[key| |] d1]; simpl.
  - right. exists z, key. split; [done|].
    destruct (_ =? 0); [destruct (commit d1)|]; done.
  - left. destruct s as [[m n] d]; simpl.
    destruct (_ =? 0); [destruct (commit d1)|]; done.
  - by left.
Qed.

Lemma customer_loop_count rs d0 s :
  loop (fun _ r s => Ok (customer_row r s)) 0 rs (∅, 0%nat, d0, []) = Ok s ->
  NoDup (omap row_id rs) ->
  s.1.1.2 = size s.1.1.1
  /\ forall z, is_Some (s.1.1.1 !! z) -> z ∈ omap row_id rs.
Proof.
  revert rs s. apply (loop_ind _ (fun rs s => NoDup (omap row_id rs) -> _)).
  - intros _. split; [done|]. intros z [? Hz]. simpl in Hz.
    by rewrite lookup_empty in Hz.
  - intros l r [[[m n] d] j] x _ IH Hx Hnd. simplify_eq/=.
    rewrite omap_app in Hnd. apply NoDup_app in Hnd as (Hl & Hfresh & _).
    destruct (IH Hl) as [Hn Hdom]. simpl in *.
    destruct (customer_row_spec r (m, n, d)) as [->|(z & key & Hz & ->)];
      simpl in *.
    + split; [done|]. intros z Hz. rewrite omap_app, elem_of_app. auto.
    + assert (m !! z = None) as Hnone.
      { destruct (m !! z) eqn:E; [|done]. exfalso.
        apply (Hfresh z); [by apply Hdom|]. rewrite Hz. left. }
      rewrite map_size_insert_None by done. split; [lia|].
      intros z' Hz'. rewrite omap_app, elem_of_app.
      destruct (decide (z = z')) as [<-|Hne].
      * right. simpl. rewrite Hz. left.
      * left. apply Hdom. by rewrite lookup_insert_ne in Hz'.
Qed.

(** The key map of the customer pass never has more entries than the
    pass has counted. *)
Lemma customer_loop_size rs d0 s :
  loop (fun _ r s => Ok (customer_row r s)) 0 rs (∅, 0%nat, d0, []) = Ok s ->
  (size s.1.1.1 <= s.1.1.2)%nat.
Proof.
  revert rs s. apply (loop_ind _ (fun rs s => (size s.1.1.1 <= s.1.1.2)%nat)).
  - simpl. by rewrite map_size_empty.
  - intros l r [[[m n] d] j] x _ IH Hx. simplify_eq/=.
    destruct (customer_row_spec r (m, n, d)) as [->|(z & key & Hz & ->)];
      simpl; [done|].
    rewrite map_size_insert. destruct (m !! z); simpl; lia.
Qed.

Lemma NoDup_omap_take {A B} (f : A -> option B) (l : list A) (n : nat) :
  NoDup (omap f l) -> NoDup (omap f (take n l)).
Proof.
  rewrite <- (take_drop n l) at 1. rewrite omap_app.
  by intros (? & _)%NoDup_app.
Qed.

Lemma import_customers_Ok df d customer_map imported d' journal :
  import_customers df d = Ok (customer_map, imported, d', journal) ->
  "Customer Id" ∈ columns df
  /\ exists d1,
      loop (fun _ r s => Ok (customer_row r s)) 0 (customer_rows df)
        (∅, 0%nat, d, []) = Ok (customer_map, imported, d1, journal).
Proof.
  unfold import_customers. case_decide; [|done]. split; [done|].
  apply rbind_Ok in H0 as ([[[m n] d1] j1] & Hloop & Hc).
  apply final_commit_Ok in Hc as [? ?]. simplify_eq/=. eauto.
Qed.

(** *** Trimming *)

Lemma lstrip_head space s :
  lstrip space s = ""
  \/ exists a t, lstrip space s = String a t /\ space a = false.
Proof.
  induction s as [|a s IH]; simpl; [by left|].
  destruct (space a) eqn:E; [done|]. right. eauto.
Qed.

Lemma rstrip_cons space a t :
  space a = false -> rstrip space (String a t) = String a (rstrip space t).
Proof. intros Ha. simpl. rewrite Ha. by destruct (rstrip space t). Qed.

Lemma rstrip_idem space s : rstrip space (rstrip space s) = rstrip space s.
Proof.
  induction s as [|a s IH]; [done|]. simpl.
  destruct (rstrip space s) as [|b t] eqn:E.
  - destruct (space a) eqn:Ha; [done|]. simpl. by rewrite Ha.
  - change (rstrip space (String a (String b t)) = String a (String b t)).
    simpl in IH. simpl. by rewrite IH.
Qed.

Lemma strip_by_idem space s :
  strip_by space (strip_by space s) = strip_by space s.
Proof.
  unfold strip_by.
  destruct (lstrip_head space s) as [->|(a & t & -> & Ha)]; [done|].
  rewrite rstrip_cons by done. simpl lstrip. rewrite Ha.
  rewrite rstrip_cons by done. by rewrite rstrip_idem.
Qed.

Lemma strip_idem s : strip (strip s) = strip s.
Proof. apply strip_by_idem. Qed.

(** *** Canonical products and the product pass *)

Lemma elem_of_product_columns df c :
  c ∈ product_columns df <-> c ∈ product_cols /\ c ∈ columns df.
Proof. unfold product_columns. rewrite list_elem_of_filter. tauto. Qed.

Lemma isna_rows df r c :
  r ∈ rows df -> c ∈ columns df ->
  isna (get r c) = true -> get r c = SFloat S754_nan.
Proof.
  intros (rec & -> & _)%list_elem_of_fmap Hc. rewrite get_row_of by done.
  pose proof binary_normalize_not_nan as Hnan. unfold store, float_of_Z.
  destruct (dtype_of df c), (cell_at rec c) as [[]|z|]; simpl; try done;
    specialize (Hnan z); by destruct (binary_normalize 53 1024 z 0 false).
Qed.

(** A row of [products] carries, as a text, the trimmed name of a row of
    the frame that has a usable name. *)
Lemma elem_of_products df r :
  "Product Name" ∈ columns df -> r ∈ products df ->
  exists raw,
    raw ∈ rows df /\ unnamed raw = false
    /\ get r "Product Name" = SStr (strip (py_str (get raw "Product Name"))).
Proof.
  intros Hcol Hr. unfold products in Hr.
  apply list_elem_of_filter in Hr as [Hkeep Hr].
  apply list_elem_of_fmap in Hr as (raw & -> & Hraw).
  assert ("Product Name" ∈ product_columns df) as Hsel.
  { apply elem_of_product_columns. split; [apply list_elem_of_here|done]. }
  assert (get (normalise_name (select (product_columns df) raw)) "Product Name"
          = SStr (strip (py_str (get raw "Product Name")))) as Hget.
  { unfold normalise_name, get at 1. rewrite lookup_insert_eq. simpl.
    by rewrite get_select. }
  exists raw. split; [done|]. split; [|done].
  unfold keep_product in Hkeep. rewrite Hget in Hkeep.
  apply andb_true_iff in Hkeep as [[_ Hnan]%andb_true_iff Hblank].
  apply bool_decide_eq_true in Hnan, Hblank.
  unfold unnamed. apply orb_false_iff. split; [apply orb_false_iff; split|].
  - destruct (isna (get raw "Product Name")) eqn:Hna; [|done].
    apply (isna_rows df) in Hna; [|done..]. rewrite Hna in Hnan. done.
  - apply bool_decide_eq_false. intros E. by rewrite E in Hblank.
  - apply bool_decide_eq_false. intros E. by rewrite E in Hnan.
Qed.

Lemma elem_of_products_unique df r :
  "Product Name" ∈ columns df -> r ∈ products_unique df ->
  exists raw,
    raw ∈ rows df /\ unnamed raw = false
    /\ r !! "Product Name"
       = Some (SStr (strip (py_str (get raw "Product Name")))).
Proof.
  intros Hcol Hr. unfold products_unique, groupby_first in Hr.
  apply list_elem_of_fmap in Hr as (k & -> & Hk).
  apply elem_of_group_keys in Hk as (_ & r' & Hr' & <-).
  destruct (elem_of_products df r' Hcol Hr') as (raw & Hraw & Hnamed & Hget).
  exists raw. split; [done|]. split; [done|].
  unfold group_first. rewrite lookup_tabulate, decide_True.
  - rewrite decide_True by done. by rewrite Hget.
  - apply elem_of_product_columns. split; [apply list_elem_of_here|done].
Qed.

(** An iteration of the product loop leaves map and counter alone, or
    files the trimmed name of the row and counts it. *)
Lemma product_row_spec r s :
  (product_row r s).1.1 = s.1
  \/ exists v key,
       r !! "Product Name" = Some v
       /\ (product_row r s).1.1 = (<[strip (py_str v) := key]> s.1.1, S s.1.2).
Proof.
  unfold product_row, item.
  destruct (r !! "Product Name") as [v|]; simpl; [|by left].
  destruct (product_params r _) as [ps|e]; simpl; [|by left].
  destruct (execute s.2 _) as [[key| |] d1]; simpl; [|by left..].
  right. by exists v, key.
Qed.

Lemma product_loop_keys rs d0 s :
  loop (fun _ r s => Ok (product_row r s)) 0 rs (∅, 0%nat, d0, []) = Ok s ->
  forall name,
    is_Some (s.1.1.1 !! name) ->
    exists r v, r ∈ rs /\ r !! "Product Name" = Some v
                /\ name = strip (py_str v).
Proof.
  revert rs s. apply (loop_ind _ (fun rs s => forall name, _ -> _)).
  - intros name [? Hn]. simpl in Hn. by rewrite lookup_empty in Hn.
  - intros l r [[[m n] d] j] x _ IH Hx name Hname. simplify_eq/=.
    destruct (product_row_spec r (m, n, d)) as [E|(v & key & Hv & E)];
      rewrite E in Hname; simpl in Hname.
    + destruct (IH name Hname) as (r' & v & ? & ? & ?).
      exists r', v. rewrite elem_of_app. auto.
    + destruct (decide (strip (py_str v) = name)) as [<-|Hne].
      * exists r, v. rewrite elem_of_app, list_elem_of_singleton. auto.
      * rewrite lookup_insert_ne in Hname by done.
        destruct (IH name Hname) as (r' & v' & ? & ? & ?).
        exists r', v'. rewrite elem_of_app. auto.
Qed.

Lemma import_products_Ok df d product_map imported d' journal :
  import_products df d = Ok (product_map, imported, d', journal) ->
  "Product Name" ∈ columns df
  /\ exists d1,
      loop (fun _ r s => Ok (product_row r s)) 0 (products_unique df)
        (∅, 0%nat, d, []) = Ok (product_map, imported, d1, journal).
Proof.
  unfold import_products. case_decide; [|done]. split; [done|].
  apply rbind_Ok in H0 as ([[[m n] d1] j1] & Hloop & Hc).
  apply final_commit_Ok in Hc as [? ?]. simplify_eq/=. eauto.
Qed.

(** The name the order loop looks up. *)
Lemma order_product_name_Some r name :
  order_product_name r = Some name ->
  isna (get r "Product Name") = false
  /\ name = strip (py_str (get r "Product Name")).
Proof.
  unfold order_product_name, notna, get, get_or.
  destruct (r !! "Product Name") as [v|]; simpl; [|done].
  destruct (isna v); simpl; [done|]. by intros ?; simplify_eq.
Qed.

(** ** The claims *)


(** C2, amended: for every customer id borne by a row of the frame there
    is exactly one canonical customer, and each of its customer columns
    holds the value of the first row, among those bearing the id in file
    order, in which that column is not absent; the fill value when it is
    absent in all of them.  The canonical customer is the first row taken
    whole when no customer column is absent in that row.  Two rows bear
    the same id when their ids are the same key of the grouping. *)
Theorem canonical_customer_first_values df k :
  "Customer Id" ∈ columns df -> notna k = true -> bearing df k <> [] ->
  exists canon,
    filter (fun r => hash_key (get r "Customer Id") = hash_key k)
      (customers_unique df) = [canon]
    /\ (forall c,
        c ∈ customer_cols -> c ∈ columns df ->
        (exists i r,
            bearing df k !! i = Some r /\ notna (get r c) = true
            /\ (forall j r', (j < i)%nat -> bearing df k !! j = Some r' ->
                             isna (get r' c) = true)
            /\ canon !! c = Some (get r c))
        \/ ((forall r, r ∈ bearing df k -> isna (get r c) = true)
            /\ canon !! c = Some (na_fill c)))
    /\ forall r0,
        bearing df k !! 0%nat = Some r0 ->
        (forall c, c ∈ customer_cols -> c ∈ columns df ->
                   notna (get r0 c) = true) ->
        canon = select (customer_columns df) r0.
Proof.
  intros Hid Hk Hne.
  destruct (customers_unique_of_id df k Hid Hk Hne) as (k' & Hk' & Hh & Hone).
  exists (group_first "Customer Id" (customer_columns df) (customers df) k').
  split; [done|].
  assert (bearing df k' = bearing df k) as Hb
    by (unfold bearing; by rewrite Hh).
  assert (notna k' = true) as Hna by by rewrite (hash_key_notna _ _ Hh).
  assert (exists r0 g, bearing df k = r0 :: g /\ get r0 "Customer Id" = k')
    as (rh & gh & Hhead & Hgeth).
  { destruct (group_of_head _ _ _ Hk') as (r & g & Hg & Hget).
    rewrite group_of_customers, Hb in Hg by done.
    destruct (bearing df k) as [|r0 rs]; [done|].
    rewrite fmap_cons in Hg. simplify_eq. exists r0, rs. split; [done|].
    by rewrite get_select by by apply id_in_customer_columns. }
  assert (forall c,
    c ∈ customer_cols -> c ∈ columns df ->
    (exists i r,
        bearing df k !! i = Some r /\ notna (get r c) = true
        /\ (forall j r', (j < i)%nat -> bearing df k !! j = Some r' ->
                         isna (get r' c) = true)
        /\ group_first "Customer Id" (customer_columns df) (customers df) k'
           !! c = Some (get r c))
    \/ ((forall r, r ∈ bearing df k -> isna (get r c) = true)
        /\ group_first "Customer Id" (customer_columns df) (customers df) k'
           !! c = Some (na_fill c))) as Hcols; [|split; [exact Hcols|]].
  2:{ intros r0 Hr0 Hfull. apply map_eq. intros c.
      rewrite lookup_select.
      assert (r0 ∈ rows df) as Hin.
      { apply list_elem_of_lookup_2 in Hr0. unfold bearing in Hr0.
        by apply list_elem_of_filter in Hr0 as [_ ?]. }
      case_decide as Hsel.
      - apply elem_of_customer_columns in Hsel as [Hc Hcol].
        rewrite (lookup_rows df r0 c Hin Hcol).
        specialize (Hfull c Hc Hcol).
        destruct (Hcols c Hc Hcol) as [(i & r & Hi & _ & Hlt & ->)|[Hall _]].
        + destruct i as [|i]; [by simplify_eq|].
          specialize (Hlt 0%nat r0 ltac:(lia) Hr0).
          unfold notna in Hfull. by rewrite Hlt in Hfull.
        + apply list_elem_of_lookup_2 in Hr0. apply Hall in Hr0.
          unfold notna in Hfull. by rewrite Hr0 in Hfull.
      - unfold group_first. rewrite lookup_tabulate. by rewrite decide_False. }
  intros c Hc Hcol.
  assert (c ∈ customer_columns df) as Hsel
    by by apply elem_of_customer_columns.
  unfold group_first. rewrite lookup_tabulate, decide_True by done.
  destruct (decide (c = "Customer Id")) as [->|Hck].
  - left. exists 0%nat, rh. rewrite Hhead, Hgeth.
    repeat split; [done|]. intros; lia.
  - rewrite group_of_customers, Hb by done.
    destruct (first_valid_spec c (select (customer_columns df) <$> bearing df k))
      as [(i & r & Hi & Hr & Hlt & ->)|[Hall ->]].
    + left. rewrite list_lookup_fmap in Hi.
      destruct (bearing df k !! i) as [r0|] eqn:Hr0; simplify_eq/=.
      rewrite get_select in Hr |- * by done.
      exists i, r0. repeat split; [done..|].
      intros j r' Hj Hr'. specialize (Hlt j (select (customer_columns df) r') Hj).
      rewrite list_lookup_fmap, Hr', get_select in Hlt by done. by apply Hlt.
    + right. split; [|done]. intros r Hr.
      specialize (Hall (select (customer_columns df) r)).
      rewrite get_select in Hall by done. apply Hall.
      by apply list_elem_of_fmap_2.
Qed.

(** C3, amended: when the sink answers every insert with a key or with
    a database error, and its commits go through, the tallies and the key
    map of a completed order pass count every source row once:
    no_customer + no_product + error + len(order_map) is the number of
    rows. *)
Theorem order_tallies_partition df customer_map product_map batch_size d
    st d' journal :
  (forall d q, (execute d q).1 <> NoRow) ->
  (forall d, (commit d).1 = true) ->
  import_orders df customer_map product_map batch_size d
  = Ok (st, d', journal) ->
  (no_customer st + no_product st + error st + size (order_map st))%nat
  = length (records df).
Proof.
  intros Hrow Hcommit (d1 & Hloop)%import_orders_Ok.
  rewrite <- length_iterrows.
  change st with (st, d1, journal).1.1.
  revert Hloop. generalize (st, d1, journal). generalize (iterrows df).
  apply (loop_ind _ (fun rs s => _ = length rs)); [done|].
  intros l r [[st0 d0] j0] x Hl IH Hx. simpl in *.
  apply order_loop_fresh in Hl. simpl in Hl.
  rewrite (order_row_one_bucket _ _ _ _ _ _ _ _ Hrow Hcommit Hx Hl), IH.
  rewrite length_app. simpl. lia.
Qed.

(** C4, amended: both key maps are looked up for every order row before
    either check.  A row whose customer lookup fails is tallied under
    no_customer, never under no_product, and nothing else is done for it:
    its iteration consists of the two lookups.  Only rows whose customer
    lookup succeeds have the product lookup checked, and are tallied
    under no_product when it fails. *)
Theorem customer_failure_skips_row df customer_map product_map batch_size d
    st d' journal :
  import_orders df customer_map product_map batch_size d
  = Ok (st, d', journal) ->
  no_customer st = length (filter (customer_fails customer_map) (iterrows df))
  /\ no_product st
     = length (filter (fun r => negb (customer_fails customer_map r)
                                && product_fails product_map r)
                 (iterrows df))
  /\ forall idx r,
      iterrows df !! idx = Some r -> customer_fails customer_map r = true ->
      exists source_id,
        source_customer_id r = Ok source_id
        /\ journal !! idx
           = Some [CustomerGet source_id; ProductGet (order_product_name r)].
Proof.
  intros (d1 & Hloop)%import_orders_Ok.
  destruct (order_loop_tallies _ _ _ _ _ _ Hloop) as (_ & H1 & H2 & _).
  split; [done|]. split; [done|].
  apply (order_loop_no_customer _ _ _ _ _ _ Hloop).
Qed.

(** C5: every canonical product bears the trimmed name of a row of the
    frame whose name is neither absent, nor blank, nor the text nan; the keys
    of the product map are such names; and an order row without such a
    name never enters the key map of an order pass run with that product
    map. *)
Theorem unnamed_products_unresolvable df d product_map imported d1 j1 :
  import_products df d = Ok (product_map, imported, d1, j1) ->
  (forall r,
      r ∈ products_unique df ->
      exists raw,
        raw ∈ rows df /\ unnamed raw = false
        /\ r !! "Product Name"
           = Some (SStr (strip (py_str (get raw "Product Name")))))
  /\ (forall name,
        is_Some (product_map !! name) ->
        name <> "" /\ name <> "nan"
        /\ exists r, r ∈ products_unique df
                     /\ r !! "Product Name" = Some (SStr name))
  /\ (forall customer_map batch_size d2 st d3 j2 idx r,
        import_orders df customer_map product_map batch_size d2
        = Ok (st, d3, j2) ->
        iterrows df !! idx = Some r -> unnamed r = true ->
        order_map st !! idx = None).
Proof.
  intros (Hcol & d' & Hloop)%import_products_Ok.
  assert (forall name,
             is_Some (product_map !! name) ->
             name <> "" /\ name <> "nan"
             /\ exists r, r ∈ products_unique df
                          /\ r !! "Product Name" = Some (SStr name)) as Hkeys.
  { intros name Hname.
    destruct (product_loop_keys _ _ _ Hloop name Hname) as (r & v & Hr & Hv & ->).
    destruct (elem_of_products_unique df r Hcol Hr) as (raw & _ & Hnamed & Hraw).
    rewrite Hraw in Hv. simplify_eq. simpl. rewrite strip_idem.
    unfold unnamed in Hnamed.
    apply orb_false_iff in Hnamed as [[_ Hb]%orb_false_iff Hn].
    apply bool_decide_eq_false in Hb, Hn. repeat split; [done..|].
    exists r. by rewrite Hraw. }
  split; [intros r Hr; by apply elem_of_products_unique|]. split; [done|].
  intros customer_map batch_size d2 st d3 j2 idx r Horders Hr Hunnamed.
  destruct (order_map st !! idx) as [key|] eqn:E; [exfalso|done].
  apply import_orders_Ok in Horders as (d4 & Horders).
  apply order_loop_keys in Horders as [_ Hmap]. simpl in Hmap.
  apply Hmap in E
    as (r' & sid & name & evs & q & Hr' & _ & _ & Hname & Hpm & _).
  simplify_eq.
  apply order_product_name_Some in Hname as [Hna ->].
  destruct (Hkeys _ Hpm) as (Hb & Hn & _).
  unfold unnamed in Hunnamed. rewrite Hna in Hunnamed. simpl in Hunnamed.
  apply orb_true_iff in Hunnamed as [?%bool_decide_eq_true|?%bool_decide_eq_true];
    done.
Qed.

(** C6: in a completed shipping pass every statement sent for a position
    carries, as its order reference, the key the order map holds for that
    position, which is not zero; a position absent from the order map
    gets no statement, only the lookup; and the skip counter counts the
    positions without a usable key, plus the rows that met a database
    error. *)
Theorem shipping_only_for_mapped_orders df omap batch_size d
    shipped skipped d' journal :
  import_shipping df omap batch_size d = Ok (shipped, skipped, d', journal) ->
  length journal = length (records df)
  /\ (forall idx evs q y,
        journal !! idx = Some evs -> Execute q y ∈ evs ->
        exists key rest,
          omap !! idx = Some key /\ key <> 0
          /\ q = {| into := ShippingDetails; params := IntV key :: rest |})
  /\ (forall idx,
        (idx < length (records df))%nat -> omap !! idx = None ->
        journal !! idx = Some [OrderGet idx])
  /\ skipped
     = (length (filter (fun idx => negb (truthy (omap !! idx)))
                  (seq 0 (length (records df))))
        + length (filter db_error journal))%nat.
Proof.
  unfold import_shipping. intros ([[[n1 n2] d1] j] & Hloop & Hc)%rbind_Ok.
  apply final_commit_Ok in Hc as [? ?]. simplify_eq/=.
  apply shipping_loop_journal in Hloop as (Hlen & Hst & Habs & Hcount).
  simpl in *. rewrite length_iterrows in *.
  repeat split; try done.
  intros idx Hidx Hnone. apply Habs; [done|]. by rewrite Hnone.
Qed.

(** C7 (defect): [clean_int] lets an exception escape.  On an infinite
    float, met as a float cell or as the text inf, [int(float(value))]
    raises OverflowError, which the handler for ValueError and TypeError
    does not catch. *)
Theorem clean_int_infinity_raises :
  clean_int (SFloat (S754_infinity false)) = Raise OverflowError
  /\ clean_int (SStr "inf") = Raise OverflowError.
Proof. split; reflexivity. Qed.

(** C8 (defect): a canonical customer row whose email value is absent is
    inserted with the text of the absence marker, nan or None, as its
    email; the placeholder built from the id is only used when the row
    has no email column at all. *)
Theorem absent_email_is_rendered r source_id v ps :
  r !! "Customer Email" = Some v -> isna v = true ->
  customer_params r source_id = Ok ps ->
  exists rest,
    ps = TextV (py_str v) :: rest
    /\ (py_str v = "nan" \/ py_str v = "None")
    /\ py_str v <> placeholder_email source_id.
Proof.
  intros Hv Hna. unfold customer_params, get_or. rewrite Hv. simpl.
  intros (lat & _ & (lon & _ & ?)%rbind_Ok)%rbind_Ok. simplify_eq.
  eexists. split; [done|].
  unfold placeholder_email.
  destruct v as [|[]| |]; simpl in *; try done; split; auto;
    cbv [String.append]; discriminate.
Qed.

(** C9, amended: in the order pass the counter of successes is the
    size of the key map, at the end of the pass and after any number of
    rows.  In the customer pass the key map never has more entries than
    the counter says, and the two agree, at the end of the pass and after
    any number of rows, when no two canonical customers are filed under
    the same integer id. *)
Theorem imported_counts_key_map df d customer_map imported d1 j1
    cm pm batch_size d2 st d3 j2 :
  import_customers df d = Ok (customer_map, imported, d1, j1) ->
  import_orders df cm pm batch_size d2 = Ok (st, d3, j2) ->
  processed st = size (order_map st)
  /\ (forall n, exists s,
         loop (order_row cm pm batch_size) 0 (take n (iterrows df))
           (order_state0, d2, []) = Ok s
         /\ processed s.1.1 = size (order_map s.1.1))
  /\ (size customer_map <= imported)%nat
  /\ (NoDup (omap row_id (customer_rows df)) ->
      imported = size customer_map
      /\ forall n, exists s,
          loop (fun _ r s => Ok (customer_row r s)) 0
            (take n (customer_rows df)) (∅, 0%nat, d, []) = Ok s
          /\ s.1.1.2 = size s.1.1.1).
Proof.
  intros (_ & dc & Hc)%import_customers_Ok (do & Ho)%import_orders_Ok.
  split; [|split; [|split]].
  - by destruct (order_loop_tallies _ _ _ _ _ _ Ho).
  - intros n. destruct (loop_take _ _ n _ _ Ho) as [s Hs].
    exists s. split; [done|].
    by destruct (order_loop_tallies _ _ _ _ _ _ Hs).
  - apply (customer_loop_size _ _ _ Hc).
  - intros Hnd. split.
    + by destruct (customer_loop_count _ _ _ Hc Hnd).
    + intros n. destruct (loop_take _ _ n _ _ Hc) as [s Hs].
      exists s. split; [done|].
      by destruct (customer_loop_count _ _ _ Hs (NoDup_omap_take _ _ n Hnd)).
Qed.


(** ** Further properties *)

(** *** The coercions *)

(** X1: the coercions give None exactly on an absent value and on a text
    that is no number: for [clean_numeric] a text that [float] does not
    read, for [clean_int] also a text that [float] reads as NaN.  A number
    is never turned into None. *)
Theorem clean_None_iff v :
  (clean_numeric v = Ok None <->
   isna v = true \/ exists s, v = SStr s /\ float_of_str s = None)
  /\ (clean_int v = Ok None <->
      isna v = true
      \/ exists s, v = SStr s
           /\ (float_of_str s = None \/ float_of_str s = Some S754_nan)).
Proof.
  unfold clean_numeric, clean_int, py_float.
  destruct v as [|f|z|s]; simpl.
  - split; split; auto.
  - destruct f; simpl; (split; split; [try done|intros [?|(? & ? & ?)]; done
                                       |try done|intros [?|(? & ? & ?)]; done]);
      auto.
  - pose proof (binary_normalize_not_nan z) as Hz.
    destruct (binary_normalize _ _ _ _ _); simpl;
      (split; split; [try done|intros [?|(? & ? & ?)]; done
                      |try done|intros [?|(? & ? & ?)]; done]).
  - destruct (float_of_str s) as [[| | |]|] eqn:E; simpl;
      (split; split;
       [try done; intros _; right; exists s; auto
       |intros [?|(? & ? & ?)]; simplify_eq; try done
       |try done; intros _; right; exists s; auto
       |intros [?|(? & ? & [?|?])]; simplify_eq; try done]);
      congruence.
Qed.

(** X2: what [clean_int] gives is what [clean_numeric] gives, cut toward
    zero: the sign is kept and the magnitude is the integer part. *)
Theorem clean_int_truncates v z :
  clean_int v = Ok (Some z) ->
  exists f,
    clean_numeric v = Ok (Some f) /\
    match f with
    | S754_zero _ => z = 0
    | S754_finite s m e =>
        z = cond_Zopp s (Z.abs z)
        /\ (0 <= e -> Z.abs z = Zpos m * 2 ^ e)
        /\ (e < 0 ->
            Z.abs z * 2 ^ (- e) <= Zpos m < (Z.abs z + 1) * 2 ^ (- e))
    | _ => False
    end.
Proof.
  unfold clean_int, clean_numeric. destruct (isna v); [done|].
  destruct (py_float v) as [f|e]; simpl; [|by destruct e].
  intros H. exists f. split; [done|].
  destruct f as [s|s| |s m e]; simpl in H; simplify_eq; [done|].
  assert (0 <= Z.shiftl (Z.pos m) e) as Hq by (apply Z.shiftl_nonneg; lia).
  assert (Z.abs (cond_Zopp s (Z.shiftl (Z.pos m) e)) = Z.shiftl (Z.pos m) e)
    as -> by (destruct s; simpl; lia).
  split; [done|]. split.
  - intros He. by apply Z.shiftl_mul_pow2.
  - intros He. replace e with (- (- e)) at 1 3 by lia.
    rewrite Z.shiftl_opp_r, Z.shiftr_div_pow2 by lia.
    assert (0 < 2 ^ (- e)) as Hd by (apply Z.pow_pos_nonneg; lia).
    split.
    + rewrite Z.mul_comm. apply Z.mul_div_le. lia.
    + rewrite Z.mul_comm. apply Z.mul_succ_div_gt. lia.
Qed.

(** X3: the one exception that leaves [clean_int] is OverflowError, and
    it does so exactly when the value is an integer too large for a float
    or converts to an infinite float. *)
Theorem clean_int_raises_iff v e :
  clean_int v = Raise e <->
  e = OverflowError
  /\ (clean_numeric v = Raise OverflowError
      \/ exists s, clean_numeric v = Ok (Some (S754_infinity s))).
Proof.
  assert (forall r : res pyfloat,
    (forall x, r = Raise x ->
               x = ValueError \/ x = TypeError \/ x = OverflowError) ->
    except_value_type (f <-- r ;; int_of_float f) = Raise e <->
    e = OverflowError
    /\ (except_value_type r = Raise OverflowError
        \/ exists s, except_value_type r = Ok (Some (S754_infinity s)))) as Hr.
  { intros [[s|s| |s m x]|x] Hx; simpl.
    - split; [done|]. intros (_ & [?|(? & ?)]); done.
    - split.
      + intros ?; simplify_eq. split; [done|]. right. by exists s.
      + by intros (-> & _).
    - split; [done|]. intros (_ & [?|(? & ?)]); done.
    - split; [done|]. intros (_ & [?|(? & ?)]); done.
    - destruct (Hx x eq_refl) as [->|[->| ->]]; simpl.
      + split; [done|]. intros (_ & [?|(? & ?)]); done.
      + split; [done|]. intros (_ & [?|(? & ?)]); done.
      + split; [|by intros (-> & _)].
        intros ?; simplify_eq. split; [done|by left]. }
  unfold clean_int, clean_numeric. destruct (isna v).
  { split; [done|]. intros (_ & [?|(? & ?)]); done. }
  apply Hr. intros x. unfold py_float. destruct v as [|f|z|s]; simpl.
  - intros; simplify_eq; auto.
  - done.
  - destruct (binary_normalize _ _ _ _ _); intros; simplify_eq; auto.
  - destruct (float_of_str s); intros; simplify_eq; auto.
Qed.

(** *** Passes as loops *)

Lemma loop_total {St} (step : nat -> row -> St * db -> res (St * db * list event)) :
  (forall idx r s, exists x, step idx r s = Ok x) ->
  forall rs idx s, exists s', loop step idx rs s = Ok s'.
Proof.
  intros H rs. induction rs as [|r rs IH]; intros idx s; simpl; [eauto|].
  destruct (H idx r (s.1.1, s.1.2)) as [x ->]. simpl. apply IH.
Qed.


(** What holds of every iteration holds of every entry of the journal. *)
Lemma loop_journal_rows {St}
    (step : nat -> row -> St * db -> res (St * db * list event))
    (Q : nat -> row -> list event -> Prop) st0 d0 :
  (forall idx r s x, step idx r s = Ok x -> Q idx r x.2) ->
  forall rs s,
    loop step 0 rs (st0, d0, []) = Ok s ->
    length s.2 = length rs
    /\ forall idx evs,
        s.2 !! idx = Some evs -> exists r, rs !! idx = Some r /\ Q idx r evs.
Proof.
  intros HQ. apply (loop_ind _ (fun rs s => length s.2 = length rs /\ _)).
  - split; [done|]. intros idx evs H. simpl in H. by rewrite lookup_nil in H.
  - intros l r [[st d] j] x _ [Hlen IH] Hx. simpl in *.
    split; [rewrite !length_app, Hlen; simpl; lia|].
    intros idx evs Hevs. destruct (decide (idx = length l)) as [->|Hne].
    + rewrite <- Hlen, lookup_snoc_last in Hevs. simplify_eq.
      exists r. rewrite lookup_snoc_last. split; [done|]. eauto.
    + rewrite lookup_snoc_before in Hevs by lia.
      destruct (IH idx evs Hevs) as (r' & Hr' & HQ').
      exists r'. by rewrite lookup_snoc_before by done.
Qed.

(** *** The dimension passes *)

Lemma customer_row_keyed : keyed_step row_id customer_statement customer_row.
Proof.
  intros r s. unfold customer_row, customer_statement, row_id.
  destruct (rbind (item r "Customer Id") py_int) as [z|e]; simpl; [|by left].
  destruct (customer_params r z) as [ps|e]; simpl; [|by left].
  right. destruct (execute s.2 _) as [y d1] eqn:E.
  exists z, {| into := Customers; params := ps |}, y, d1.
  destruct y as [key| |]; simpl.
  - destruct (_ =? 0); [destruct (commit d1) as [ok d2]|]; eexists;
      (repeat split; [done|]); intros e; in_events.
  - destruct s as [[m n] d]; simpl in *.
    destruct (_ =? 0); [destruct (commit d1) as [ok d2]|]; eexists;
      (repeat split; [done|]); intros e; in_events.
  - exists []. repeat split; try done. intros e; in_events.
Qed.

Lemma product_row_keyed : keyed_step product_key product_statement product_row.
Proof.
  intros r s. unfold product_row, product_statement, product_key.
  destruct (item r "Product Name") as [v|e]; simpl; [|by left].
  destruct (product_params r _) as [ps|e]; simpl; [|by left].
  right. destruct (execute s.2 _) as [y d1] eqn:E.
  exists (strip (py_str v)), {| into := Products; params := ps |}, y, d1, [].
  destruct y as [key| |]; simpl; repeat split; try done; intros e; in_events.
Qed.

Lemma statements_commits evs :
  (forall e, e ∈ evs -> exists ok, e = Commit ok) -> statements evs = [].
Proof.
  induction evs as [|e evs IH]; intros H; [done|].
  destruct (H e) as [ok ->]; [left|]. simpl. apply IH.
  intros e He. apply H. by right.
Qed.

Lemma fetched_commits evs q y q' key :
  (forall e, e ∈ evs -> exists ok, e = Commit ok) ->
  Execute q' (Fetched key) ∈ Execute q y :: evs -> q' = q /\ y = Fetched key.
Proof.
  intros H [?|Hin]%elem_of_cons; [by simplify_eq|].
  by destruct (H _ Hin).
Qed.

Lemma sent_commits evs q y q' y' :
  (forall e, e ∈ evs -> exists ok, e = Commit ok) ->
  Execute q' y' ∈ Execute q y :: evs -> q' = q /\ y' = y.
Proof.
  intros H [?|Hin]%elem_of_cons; [by simplify_eq|].
  by destruct (H _ Hin).
Qed.

Section Keyed.

Context {K : Type} `{Countable K}.
Variable key_of : row -> option K.
Variable statement_of : row -> option stmt.
Variable step : row -> gmap K Z * nat * db -> gmap K Z * nat * db * list event.
Hypothesis step_keyed : keyed_step key_of statement_of step.

(** The journal of a dimension pass has, for each row, the statement of
    the row with what the sink answered to it, or nothing. *)
Lemma keyed_loop_journal rs d0 s :
  loop (fun _ r s => Ok (step r s)) 0 rs (∅, 0%nat, d0, []) = Ok s ->
  length s.2 = length rs
  /\ forall idx evs,
      s.2 !! idx = Some evs ->
      exists r,
        rs !! idx = Some r
        /\ ((statement_of r = None /\ evs = [])
            \/ exists q y cs d d1,
                 statement_of r = Some q /\ evs = Execute q y :: cs
                 /\ execute d q = (y, d1)
                 /\ forall e, e ∈ cs -> exists ok, e = Commit ok).
Proof.
  apply (loop_journal_rows _ (fun _ r evs => _ \/ _)).
  intros _ r st x ?; simplify_eq.
  destruct (step_keyed r st)
    as [[Hnone ->]|(k & q & y & d1 & evs & _ & Hq & Hexec & -> & Hevs & _)].
  - by left.
  - right. by exists q, y, evs, st.2, d1.
Qed.

(** The statements of a dimension pass are those of its rows, in order. *)
Lemma keyed_loop_statements rs d0 s :
  loop (fun _ r s => Ok (step r s)) 0 rs (∅, 0%nat, d0, []) = Ok s ->
  concat (statements <$> s.2) = omap statement_of rs.
Proof.
  revert rs s. apply (loop_ind _ (fun rs s => concat (statements <$> s.2) = _)).
  - done.
  - intros l r [[st d] j] x _ IH ?; simplify_eq/=.
    rewrite fmap_app, concat_app, omap_app, IH. f_equal. simpl.
    destruct (step_keyed r (st, d))
      as [[-> ->]|(k & q & y & d1 & evs & _ & -> & _ & -> & Hevs & _)];
      [done|].
    simpl. by rewrite (statements_commits evs Hevs).
Qed.

(** Every entry of the key map is a key that came back for the statement
    of a row filed under it. *)
Lemma keyed_loop_values rs d0 s k key :
  loop (fun _ r s => Ok (step r s)) 0 rs (∅, 0%nat, d0, []) = Ok s ->
  s.1.1.1 !! k = Some key ->
  exists i r evs q,
    rs !! i = Some r /\ key_of r = Some k /\ statement_of r = Some q
    /\ s.2 !! i = Some evs /\ Execute q (Fetched key) ∈ evs.
Proof.
  revert rs s.
  apply (loop_ind _ (fun rs s => s.1.1.1 !! k = Some key -> _)).
  - simpl. by rewrite lookup_empty.
  - intros l r [[[m n] d] j] x Hl IH ?; simplify_eq/=.
    apply loop_journal_length in Hl. simpl in Hl.
    assert (m !! k = Some key ->
            exists i r0 evs q,
              (l ++ [r]) !! i = Some r0 /\ key_of r0 = Some k
              /\ statement_of r0 = Some q
              /\ (j ++ [(step r (m, n, d)).2]) !! i = Some evs
              /\ Execute q (Fetched key) ∈ evs) as Hold.
    { intros (i & r0 & evs & q & Hr0 & ? & ? & Hevs & ?)%IH.
      exists i, r0, evs, q.
      rewrite !lookup_app_l by (by eapply lookup_lt_Some). done. }
    destruct (step_keyed r (m, n, d))
      as [[_ Hx]|(k' & q & y & d1 & evs & Hk' & Hq & _ & Hj & _ & Hm)];
      [by rewrite Hx in Hold |- *|].
    rewrite Hm. destruct y as [key'| |]; simpl; [|exact Hold..].
    destruct (decide (k' = k)) as [->|Hne];
      [|by rewrite lookup_insert_ne].
    rewrite lookup_insert_eq. intros ?; simplify_eq.
    exists (length l), r, (step r (m, n, d)).2, q.
    rewrite lookup_snoc_last, <- Hl, lookup_snoc_last, Hj.
    repeat split; try done. left.
Qed.

(** With rows filed under pairwise distinct keys, the counter is the size
    of the key map and the map holds exactly the keys that came back. *)
Lemma keyed_loop_count rs d0 s :
  NoDup (omap key_of rs) ->
  loop (fun _ r s => Ok (step r s)) 0 rs (∅, 0%nat, d0, []) = Ok s ->
  s.1.1.2 = size s.1.1.1
  /\ forall k key,
      s.1.1.1 !! k = Some key <->
      exists i r evs q,
        rs !! i = Some r /\ key_of r = Some k
        /\ s.2 !! i = Some evs /\ Execute q (Fetched key) ∈ evs.
Proof.
  intros Hnd Hloop. revert rs s Hloop Hnd.
  apply (loop_ind _ (fun rs s => NoDup (omap key_of rs) -> _ /\ _)).
  - intros _. split; [done|]. intros k key. simpl. rewrite lookup_empty.
    split; [done|]. by intros (i & r & ? & ? & Hr & _).
  - intros l r [[[m n] d] j] x Hl IH ? Hnd; simplify_eq/=.
    rewrite omap_app in Hnd. apply NoDup_app in Hnd as (Hndl & Hfresh & _).
    destruct (IH Hndl) as [Hn Hkeys]. simpl in *.
    apply loop_journal_length in Hl. simpl in Hl.
    assert (forall i r0, l !! i = Some r0 -> key_of r0 <> key_of r
                                            \/ key_of r = None) as Hother.
    { intros i r0 Hr0. destruct (key_of r) as [k|] eqn:Hk; [|by right].
      left. intros Hk0. apply (Hfresh k).
      - apply list_elem_of_omap. exists r0.
        split; [by eapply list_elem_of_lookup_2|done].
      - left. }
    assert (forall k key,
      (exists i r0 evs q,
          (l ++ [r]) !! i = Some r0 /\ key_of r0 = Some k
          /\ (j ++ [(step r (m, n, d)).2]) !! i = Some evs
          /\ Execute q (Fetched key) ∈ evs) <->
      m !! k = Some key
      \/ (key_of r = Some k
          /\ exists q, Execute q (Fetched key) ∈ (step r (m, n, d)).2))
      as Hsplit.
    { intros k key. rewrite Hkeys. split.
      - intros (i & r0 & evs & q & Hr0 & Hk & Hevs & Hin).
        destruct (decide (i = length l)) as [->|Hne].
        + rewrite lookup_snoc_last in Hr0.
          rewrite <- Hl, lookup_snoc_last in Hevs. simplify_eq. eauto.
        + rewrite lookup_snoc_before in Hr0 by done.
          rewrite lookup_snoc_before in Hevs by lia.
          left. by exists i, r0, evs, q.
      - intros [(i & r0 & evs & q & Hr0 & Hk & Hevs & Hin)|(Hk & q & Hin)].
        + exists i, r0, evs, q.
          rewrite !lookup_app_l by (by eapply lookup_lt_Some). done.
        + exists (length l), r, (step r (m, n, d)).2, q.
          rewrite lookup_snoc_last, <- Hl, lookup_snoc_last. done. }
    destruct (step_keyed r (m, n, d))
      as [[_ Hx]|(k' & q & y & d1 & evs & Hk' & Hq & _ & Hj & Hevs & Hm)].
    + rewrite Hx in Hsplit |- *. simpl in *. split; [done|].
      intros k key. rewrite Hsplit. split; [by left|].
      intros [?|(_ & q & Hin)]; [done|]. by apply elem_of_nil in Hin.
    + rewrite Hm.
      assert (m !! k' = None) as Hnone.
      { destruct (m !! k') as [key0|] eqn:E; [|done]. exfalso.
        apply Hkeys in E as (i & r0 & _ & _ & Hr0 & Hk0 & _).
        destruct (Hother i r0 Hr0) as [Hne|Hne]; congruence. }
      destruct y as [key'| |]; simpl.
      * rewrite map_size_insert_None by done. split; [lia|].
        intros k key. rewrite Hsplit, Hj.
        destruct (decide (k' = k)) as [->|Hne].
        -- rewrite lookup_insert_eq, Hnone. split.
           ++ intros ?; simplify_eq. right. split; [done|]. exists q. left.
           ++ intros [?|(_ & q' & Hin)]; [done|].
              by apply (fetched_commits evs) in Hin as [_ ?]; simplify_eq.
        -- rewrite lookup_insert_ne by done. split; [by left|].
           intros [?|(? & _)]; [done|congruence].
      * split; [done|]. intros k key. rewrite Hsplit, Hj.
        split; [by left|]. intros [?|(_ & q' & Hin)]; [done|].
        by apply (fetched_commits evs) in Hin as [_ ?].
      * split; [done|]. intros k key. rewrite Hsplit, Hj.
        split; [by left|]. intros [?|(_ & q' & Hin)]; [done|].
        by apply (fetched_commits evs) in Hin as [_ ?].
Qed.

End Keyed.

Lemma NoDup_omap_inj {A B C} (f : A -> B) (h : B -> option C) (inj : C -> A)
    (l : list A) :
  NoDup l ->
  (forall x, x ∈ l -> exists z, x = inj z /\ h (f x) = Some z) ->
  NoDup (omap h (f <$> l)).
Proof.
  induction 1 as [|x l Hx Hnd IH]; intros Hl; [constructor|].
  destruct (Hl x) as (z & -> & Hz); [left|].
  rewrite fmap_cons. simpl. rewrite Hz. constructor.
  - intros (b & Hb & Hhb)%list_elem_of_omap.
    apply list_elem_of_fmap in Hb as (y & -> & Hy).
    destruct (Hl y) as (z' & -> & Hz'); [by right|]. by simplify_eq.
  - apply IH. intros y Hy. apply Hl. by right.
Qed.

Lemma name_in_product_columns df :
  "Product Name" ∈ columns df -> "Product Name" ∈ product_columns df.
Proof.
  intros H. apply elem_of_product_columns. split; [|done].
  apply list_elem_of_here.
Qed.

(** A row of the frame with a usable name gives a row of [products]. *)
Lemma elem_of_products_2 df raw :
  "Product Name" ∈ columns df -> raw ∈ rows df -> unnamed raw = false ->
  exists r,
    r ∈ products df
    /\ get r "Product Name" = SStr (strip (py_str (get raw "Product Name"))).
Proof.
  intros Hcol Hraw Hnamed.
  exists (normalise_name (select (product_columns df) raw)).
  assert (get (normalise_name (select (product_columns df) raw)) "Product Name"
          = SStr (strip (py_str (get raw "Product Name")))) as Hget.
  { unfold normalise_name, get at 1. rewrite lookup_insert_eq. simpl.
    by rewrite get_select by by apply name_in_product_columns. }
  split; [|done]. unfold products. apply list_elem_of_filter.
  split;
    [|by apply (list_elem_of_fmap_2
                  (fun r => normalise_name (select (product_columns df) r)))].
  unfold keep_product. rewrite Hget. unfold unnamed in Hnamed.
  apply orb_false_iff in Hnamed as [[_ Hb]%orb_false_iff Hn].
  apply bool_decide_eq_false in Hb, Hn. simpl.
  apply andb_true_iff. split; apply bool_decide_eq_true; congruence.
Qed.

(** The group keys of the products are the trimmed usable names. *)
Lemma elem_of_product_keys df k :
  "Product Name" ∈ columns df ->
  k ∈ group_keys "Product Name" (products df) <->
  exists raw,
    raw ∈ rows df /\ unnamed raw = false
    /\ k = SStr (strip (py_str (get raw "Product Name"))).
Proof.
  intros Hcol. split.
  - intros (_ & r & Hr & <-)%elem_of_group_keys.
    destruct (elem_of_products df r Hcol Hr) as (raw & ? & ? & ?). eauto.
  - intros (raw & Hraw & Hnamed & ->).
    destruct (elem_of_products_2 df raw Hcol Hraw Hnamed) as (r & ? & ?).
    apply elem_of_group_keys_text. eauto.
Qed.

Lemma key_column_of_groups key cols rs :
  key ∈ cols ->
  (fun r => get r key) <$> groupby_first key cols rs = group_keys key rs.
Proof.
  intros Hkey. unfold groupby_first. rewrite <- list_fmap_compose.
  rewrite <- (list_fmap_id (group_keys key rs)) at 2.
  apply list_fmap_ext. intros i k _. simpl.
  rewrite get_group_first by done. by rewrite decide_True.
Qed.

Lemma product_key_of_group df k :
  "Product Name" ∈ columns df ->
  k ∈ group_keys "Product Name" (products df) ->
  exists name,
    k = SStr name
    /\ product_key (group_first "Product Name" (product_columns df)
                      (products df) k) = Some name.
Proof.
  intros Hcol (raw & _ & _ & ->)%elem_of_product_keys; [|done].
  eexists. split; [done|]. unfold product_key, item, group_first.
  rewrite lookup_tabulate.
  rewrite decide_True by by apply name_in_product_columns.
  rewrite decide_True by done. simpl. by rewrite strip_idem.
Qed.

(** The canonical products are filed under pairwise distinct names. *)
Lemma NoDup_product_keys df :
  "Product Name" ∈ columns df -> NoDup (omap product_key (products_unique df)).
Proof.
  intros Hcol. unfold products_unique, groupby_first.
  apply (NoDup_omap_inj _ _ SStr); [apply NoDup_group_keys|].
  intros k Hk. destruct (product_key_of_group df k Hcol Hk) as (name & -> & ?).
  eauto.
Qed.

(** X5: the canonical products of a frame bear pairwise distinct names,
    which are exactly the trimmed names of the rows whose name is neither
    absent, nor blank, nor the text nan: rows whose names differ only by
    surrounding blanks share one canonical product. *)
Theorem canonical_product_names df :
  "Product Name" ∈ columns df ->
  NoDup ((fun r => get r "Product Name") <$> products_unique df)
  /\ forall k,
      k ∈ (fun r => get r "Product Name") <$> products_unique df <->
      exists raw,
        raw ∈ rows df /\ unnamed raw = false
        /\ k = SStr (strip (py_str (get raw "Product Name"))).
Proof.
  intros Hcol. unfold products_unique.
  rewrite key_column_of_groups by by apply name_in_product_columns.
  split; [apply NoDup_group_keys|].
  intros k. by apply elem_of_product_keys.
Qed.

(** X7: in a customer pass whose canonical customers are filed under
    pairwise distinct integer ids, the key map holds for an id exactly
    the key that came back for the insert of the canonical customer filed
    under that id. *)
Theorem customer_map_holds_returned_keys df d customer_map imported d1 journal :
  NoDup (omap row_id (customer_rows df)) ->
  import_customers df d = Ok (customer_map, imported, d1, journal) ->
  forall source_id key,
    customer_map !! source_id = Some key <->
    exists i r evs q,
      customer_rows df !! i = Some r /\ row_id r = Some source_id
      /\ journal !! i = Some evs /\ Execute q (Fetched key) ∈ evs.
Proof.
  intros Hnd (_ & d' & Hloop)%import_customers_Ok.
  by destruct (keyed_loop_count _ _ _ customer_row_keyed _ _ _ Hnd Hloop)
    as [_ Hkeys].
Qed.

(** X8: in the product pass the counter of successes is the size of the
    key map, and the map holds for a name exactly the key that came back
    for the insert of the canonical product of that name. *)
Theorem product_map_holds_returned_keys df d product_map imported d1 journal :
  import_products df d = Ok (product_map, imported, d1, journal) ->
  imported = size product_map
  /\ forall name key,
      product_map !! name = Some key <->
      exists i r evs q,
        products_unique df !! i = Some r
        /\ r !! "Product Name" = Some (SStr name)
        /\ journal !! i = Some evs /\ Execute q (Fetched key) ∈ evs.
Proof.
  intros (Hcol & d' & Hloop)%import_products_Ok.
  destruct (keyed_loop_count _ _ _ product_row_keyed _ _ _
              (NoDup_product_keys df Hcol) Hloop) as [Hn Hkeys].
  split; [done|]. intros name key. simpl in Hkeys. rewrite Hkeys.
  assert (forall i r,
             products_unique df !! i = Some r ->
             product_key r = Some name
             <-> r !! "Product Name" = Some (SStr name)) as Hname.
  { intros i r Hr. apply list_elem_of_lookup_2 in Hr.
    destruct (elem_of_products_unique df r Hcol Hr) as (raw & _ & _ & Hraw).
    unfold product_key, item. rewrite Hraw. simpl. rewrite strip_idem.
    split; intros; by simplify_eq. }
  split; intros (i & r & evs & q & Hr & Hk & ?); exists i, r, evs, q;
    (split; [done|]); (split; [by apply (Hname i r Hr)|done]).
Qed.

(** X9: what a dimension pass sends is fixed by the frame: one insert
    for each canonical row whose fields convert, in canonical order,
    whatever the sink holds or has answered.  Nothing is looked up first,
    so a second run sends the same inserts again. *)
Theorem dimension_statements_fixed df d1 d2 cm n1 d1' j1 pm n2 d2' j2 :
  import_customers df d1 = Ok (cm, n1, d1', j1) ->
  import_products df d2 = Ok (pm, n2, d2', j2) ->
  concat (statements <$> j1) = omap customer_statement (customer_rows df)
  /\ concat (statements <$> j2) = omap product_statement (products_unique df).
Proof.
  intros (_ & ? & Hc)%import_customers_Ok (_ & ? & Hp)%import_products_Ok.
  split.
  - apply (keyed_loop_statements _ _ _ customer_row_keyed _ _ _ Hc).
  - apply (keyed_loop_statements _ _ _ product_row_keyed _ _ _ Hp).
Qed.

(** *** The order pass, by its journal *)

Lemma batch_commit_spec count batch_size d ok d' evs :
  batch_commit count batch_size d = Ok (ok, d', evs) ->
  batch_size <> 0
  /\ ((Z.of_nat count mod batch_size <> 0 /\ ok = true /\ d' = d /\ evs = [])
      \/ (Z.of_nat count mod batch_size = 0
          /\ commit d = (ok, d') /\ evs = [Commit ok])).
Proof.
  unfold batch_commit. destruct (batch_size =? 0) eqn:Hbs; [done|].
  apply Z.eqb_neq in Hbs. split; [done|].
  destruct (_ =? 0) eqn:Hmod.
  - apply Z.eqb_eq in Hmod. destruct (commit d) as [ok' d''].
    simplify_eq. by right.
  - apply Z.eqb_neq in Hmod. simplify_eq. by left.
Qed.

Ltac order_cases_full H :=
  let sid := fresh "source_id" in
  let Hsid := fresh "Hsid" in
  let Hc := fresh "Hc" in
  let Hp := fresh "Hp" in
  let Hbc := fresh "Hbc" in
  apply order_row_Ok in H
    as (sid & Hsid &
        [(Hc & ->)
        |[(Hc & Hp & ->)
         |(Hc & Hp & ?ps & ?y & ?d1 & ?Hps & ?Hexec &
           [(-> & ->)|(?Hy & ?ok & ?d2 & ?evs & Hbc & ->)])]]);
  [ | | | apply batch_commit_spec in Hbc
            as (?Hbs & [(?Hmod & -> & -> & ->)|(?Hmod & ?Hcommit & ->)]) ];
  simpl in *.

Lemma order_params_keys r customer_id product_id ps :
  order_params r customer_id product_id = Ok ps ->
  exists item rest, ps = item :: IntV customer_id :: IntV product_id :: rest.
Proof.
  unfold order_params.
  intros (? & _ & (? & _ & (? & _ & (? & _ & (? & _ & ?)%rbind_Ok)%rbind_Ok)
                             %rbind_Ok)%rbind_Ok)%rbind_Ok.
  simplify_eq. eauto.
Qed.

(** What one iteration of the order loop adds to the success counter,
    and when it commits. *)
Lemma order_row_counts customer_map product_map batch_size idx r st d x :
  order_row customer_map product_map batch_size idx r (st, d) = Ok x ->
  processed x.1.1 = (processed st + if answered x.2 then 1 else 0)%nat
  /\ (committing x.2 = true <->
      accepted x.2 = true
      /\ Z.of_nat (processed x.1.1) mod batch_size = 0)
  /\ (accepted x.2 = true -> batch_size <> 0).
Proof.
  intros H. unfold answered, accepted, committing. order_cases_full H.
  - split; [lia|]. split; [|done]. split; [done|by intros [? _]].
  - split; [lia|]. split; [|done]. split; [done|by intros [? _]].
  - split; [lia|]. split; [|done]. split; [done|by intros [? _]].
  - destruct y as [key| |]; simpl in *; try done;
      (split; [lia|]); (split; [|done]); (split; [done|by intros [_ ?]]).
  - assert (processed (if ok then after_reply idx y st
                       else bump_error (after_reply idx y st))
            = processed (after_reply idx y st)) as -> by by destruct ok.
    destruct y as [key| |]; simpl in *; try done; (split; [lia|]); done.
Qed.

(** The journal of one iteration of the order loop: the two lookups,
    then for a row whose two keys are found one insert into orders that
    carries them, and at most a commit. *)
Lemma order_row_journal customer_map product_map batch_size idx r st d x :
  order_row customer_map product_map batch_size idx r (st, d) = Ok x ->
  exists source_id,
    source_customer_id r = Ok source_id /\
    let lookups := [CustomerGet source_id; ProductGet (order_product_name r)] in
    x.2 = lookups
    \/ exists sid name cid pid item rest y cs,
         source_id = Some sid /\ customer_map !! sid = Some cid /\ cid <> 0
         /\ order_product_name r = Some name
         /\ product_map !! name = Some pid /\ pid <> 0
         /\ x.2 = lookups
                  ++ Execute {| into := Orders;
                                params := item :: IntV cid :: IntV pid :: rest |}
                       y :: cs
         /\ forall e, e ∈ cs -> exists ok, e = Commit ok.
Proof.
  intros H. order_cases H; exists source_id; (split; [done|]); try by left.
  all: right.
  all: apply truthy_lookup in Hc as (sid & cid & -> & Hcid & Hcnz).
  all: apply truthy_lookup in Hp as (name & pid & Hname & Hpid & Hpnz).
  all: rewrite Hname in *; simpl in *; rewrite Hcid, Hpid in *; simpl in *.
  all: apply order_params_keys in Hps as (item & rest & ->).
  - exists sid, name, cid, pid, item, rest, Failed, [].
    repeat split; try done. intros e; in_events.
  - exists sid, name, cid, pid, item, rest, y, [].
    repeat split; try done. intros e; in_events.
  - exists sid, name, cid, pid, item, rest, y, [Commit ok].
    repeat split; try done. intros e; in_events.
Qed.

Lemma statements_app evs1 evs2 :
  statements (evs1 ++ evs2) = statements evs1 ++ statements evs2.
Proof. apply omap_app. Qed.

(** The statements of an order pass, row by row. *)
Lemma order_loop_statements customer_map product_map batch_size d0 rs s
    idx evs q y :
  loop (order_row customer_map product_map batch_size) 0 rs
    (order_state0, d0, []) = Ok s ->
  s.2 !! idx = Some evs -> Execute q y ∈ evs ->
  exists r sid name cid pid item rest,
    rs !! idx = Some r
    /\ source_customer_id r = Ok (Some sid)
    /\ customer_map !! sid = Some cid /\ cid <> 0
    /\ order_product_name r = Some name
    /\ product_map !! name = Some pid /\ pid <> 0
    /\ q = {| into := Orders;
              params := item :: IntV cid :: IntV pid :: rest |}
    /\ statements evs = [q].
Proof.
  intros Hloop Hevs Hin.
  destruct (loop_journal_rows _
              (fun _ r evs =>
                 exists source_id,
                   source_customer_id r = Ok source_id /\
                   (evs = [CustomerGet source_id;
                           ProductGet (order_product_name r)]
                    \/ exists sid name cid pid item rest y cs,
                         source_id = Some sid
                         /\ customer_map !! sid = Some cid /\ cid <> 0
                         /\ order_product_name r = Some name
                         /\ product_map !! name = Some pid /\ pid <> 0
                         /\ evs = [CustomerGet source_id;
                                   ProductGet (order_product_name r)]
                                  ++ Execute
                                       {| into := Orders;
                                          params := item :: IntV cid
                                                    :: IntV pid :: rest |}
                                       y :: cs
                         /\ forall e, e ∈ cs -> exists ok, e = Commit ok))
              order_state0 d0
              ltac:(intros ? ? [? ?] ? ?; by eapply order_row_journal)
              _ _ Hloop) as [_ Hrows].
  destruct (Hrows idx evs Hevs)
    as (r & Hr & source_id & Hsid
        & [->|(sid & name & cid & pid & item & rest & y' & cs & -> & ? & ?
               & ? & ? & ? & -> & Hcs)]).
  { in_events. }
  apply elem_of_app in Hin as [Hin|Hin]; [in_events|].
  apply (sent_commits cs) in Hin as [-> ->]; [|done].
  exists r, sid, name, cid, pid, item, rest.
  repeat split; try done.
  rewrite statements_app. simpl. by rewrite (statements_commits cs Hcs).
Qed.

(** X10: every statement of a completed order pass is an insert into
    orders for a row whose customer id and trimmed product name are keys
    of the two maps; its customer and product references are the keys the
    maps hold for them, which are not zero; and a row gets one statement
    at most. *)
Theorem order_statements_resolved df customer_map product_map batch_size d
    st d' journal idx evs q y :
  import_orders df customer_map product_map batch_size d
  = Ok (st, d', journal) ->
  journal !! idx = Some evs -> Execute q y ∈ evs ->
  exists r sid name cid pid item rest,
    iterrows df !! idx = Some r
    /\ source_customer_id r = Ok (Some sid)
    /\ customer_map !! sid = Some cid /\ cid <> 0
    /\ order_product_name r = Some name
    /\ product_map !! name = Some pid /\ pid <> 0
    /\ q = {| into := Orders;
              params := item :: IntV cid :: IntV pid :: rest |}
    /\ statements evs = [q].
Proof.
  intros (d1 & Hloop)%import_orders_Ok.
  apply (order_loop_statements _ _ _ _ _ _ _ _ _ _ Hloop).
Qed.

(** The success counter and the commits of an order pass, read off its
    journal. *)
Lemma order_loop_counts customer_map product_map batch_size d0 rs s :
  loop (order_row customer_map product_map batch_size) 0 rs
    (order_state0, d0, []) = Ok s ->
  processed s.1.1 = length (filter answered s.2)
  /\ (forall idx evs,
        s.2 !! idx = Some evs ->
        committing evs = true <->
        accepted evs = true
        /\ Z.of_nat (length (filter answered (take (S idx) s.2)))
           mod batch_size = 0)
  /\ forall evs, evs ∈ s.2 -> accepted evs = true -> batch_size <> 0.
Proof.
  revert rs s. apply (loop_ind _ (fun rs s => _ /\ _ /\ _)).
  - split; [done|]. split.
    + intros idx evs H. simpl in H. by rewrite lookup_nil in H.
    + intros evs H. simpl in H. by apply elem_of_nil in H.
  - intros l r [[st d] j] x Hl (IH1 & IH2 & IH3) Hx. simpl in *.
    destruct (order_row_counts _ _ _ _ _ _ _ _ Hx) as (H1 & H2 & H3).
    assert (processed x.1.1 = length (filter answered (j ++ [x.2]))) as Hp.
    { rewrite length_filter_snoc, H1, IH1. by destruct (answered x.2). }
    split; [done|]. split.
    + intros idx evs Hevs. destruct (decide (idx = length j)) as [->|Hne].
      * rewrite lookup_snoc_last in Hevs. simplify_eq.
        rewrite take_ge by (rewrite length_app; simpl; lia).
        by rewrite <- Hp.
      * rewrite lookup_snoc_before in Hevs by done.
        rewrite take_app_le by (apply lookup_lt_Some in Hevs; lia). auto.
    + intros evs [Hin| ->%list_elem_of_singleton]%elem_of_app; eauto.
Qed.

(** X11: the figures an order pass prints, read off its journal: the
    number imported is the number of rows whose insert came back with a
    key, the number of errors the number of rows that met a database
    error, at the insert or at a batch commit; the journal has one entry
    for each row of the frame. *)
Theorem order_tallies_by_journal df customer_map product_map batch_size d
    st d' journal :
  import_orders df customer_map product_map batch_size d
  = Ok (st, d', journal) ->
  length journal = length (records df)
  /\ processed st = length (filter answered journal)
  /\ error st = length (filter db_error journal).
Proof.
  intros (d1 & Hloop)%import_orders_Ok.
  destruct (order_loop_counts _ _ _ _ _ _ Hloop) as (Hp & _).
  destruct (order_loop_tallies _ _ _ _ _ _ Hloop) as (_ & _ & _ & He).
  apply loop_journal_length in Hloop. simpl in *.
  rewrite length_iterrows in Hloop. done.
Qed.

(** *** The shipping pass, by its journal *)

Ltac shipping_cases_full H :=
  let Hbc := fresh "Hbc" in
  apply shipping_row_Ok in H
    as [(?Ht & ->)
       |(?key & ?rest & ?y & ?d1 & ?Hkey & ?Hnz & ?Hexec &
         [(-> & ->)|(?Hy & ?ok & ?d2 & ?evs & Hbc & ->)])];
  [ | | apply batch_commit_spec in Hbc
          as (?Hbs & [(?Hmod & -> & -> & ->)|(?Hmod & ?Hcommit & ->)]) ];
  simpl in *.

(** What one iteration of the shipping loop adds to the two counters,
    and when it commits. *)
Lemma shipping_row_counts omap batch_size idx r s x :
  shipping_row omap batch_size idx r s = Ok x ->
  x.1.1.1 = (s.1.1 + if accepted x.2 then 1 else 0)%nat
  /\ (x.1.1.1 + x.1.1.2
      = s.1.1 + s.1.2 + 1 + if commit_failed x.2 then 1 else 0)%nat
  /\ (committing x.2 = true <->
      accepted x.2 = true /\ Z.of_nat x.1.1.1 mod batch_size = 0)
  /\ (accepted x.2 = true -> batch_size <> 0).
Proof.
  intros H. unfold accepted, committing, commit_failed.
  shipping_cases_full H.
  - split; [lia|]. split; [lia|]. split; [|done].
    split; [done|by intros [? _]].
  - split; [lia|]. split; [lia|]. split; [|done].
    split; [done|by intros [? _]].
  - destruct y as [k| |]; simpl in *; try done;
      (split; [lia|]); (split; [lia|]); (split; [|done]);
      (split; [done|]); intros [_ Hm]; lia.
  - destruct y as [k| |], ok; simpl in *; try done;
      (split; [lia|]); (split; [lia|]); (split; [|done]);
      split; try done; split; try done; lia.
Qed.

Lemma shipping_loop_counts omap batch_size d0 rs s :
  loop (shipping_row omap batch_size) 0 rs (0%nat, 0%nat, d0, []) = Ok s ->
  s.1.1.1 = length (filter accepted s.2)
  /\ (s.1.1.1 + s.1.1.2 = length rs + length (filter commit_failed s.2))%nat
  /\ (forall idx evs,
        s.2 !! idx = Some evs ->
        committing evs = true <->
        accepted evs = true
        /\ Z.of_nat (length (filter accepted (take (S idx) s.2)))
           mod batch_size = 0)
  /\ forall evs, evs ∈ s.2 -> accepted evs = true -> batch_size <> 0.
Proof.
  revert rs s. apply (loop_ind _ (fun rs s => _ /\ _ /\ _ /\ _)).
  - split; [done|]. split; [done|]. split.
    + intros idx evs H. simpl in H. by rewrite lookup_nil in H.
    + intros evs H. simpl in H. by apply elem_of_nil in H.
  - intros l r [[[shipped skipped] d] j] x Hl (IH1 & IH2 & IH3 & IH4) Hx.
    simpl in *.
    destruct (shipping_row_counts _ _ _ _ _ _ Hx) as (H1 & H2 & H3 & H4).
    simpl in *.
    assert (x.1.1.1 = length (filter accepted (j ++ [x.2]))) as Hp.
    { rewrite length_filter_snoc, H1, IH1. by destruct (accepted x.2). }
    split; [done|]. split; [|split].
    + rewrite length_filter_snoc, length_app. simpl.
      destruct (commit_failed x.2); simpl in *; lia.
    + intros idx evs Hevs. destruct (decide (idx = length j)) as [->|Hne].
      * rewrite lookup_snoc_last in Hevs. simplify_eq.
        rewrite take_ge by (rewrite length_app; simpl; lia).
        by rewrite <- Hp.
      * rewrite lookup_snoc_before in Hevs by done.
        rewrite take_app_le by (apply lookup_lt_Some in Hevs; lia). auto.
    + intros evs [Hin| ->%list_elem_of_singleton]%elem_of_app; eauto.
Qed.

Lemma import_shipping_Ok df omap batch_size d shipped skipped d' journal :
  import_shipping df omap batch_size d = Ok (shipped, skipped, d', journal) ->
  exists d1,
    loop (shipping_row omap batch_size) 0 (iterrows df)
      (0%nat, 0%nat, d, []) = Ok (shipped, skipped, d1, journal).
Proof.
  unfold import_shipping. intros ([[[n1 n2] d1] j] & Hloop & Hc)%rbind_Ok.
  apply final_commit_Ok in Hc as [? ?]. simplify_eq/=. eauto.
Qed.

(** X12: the two figures a shipping pass prints.  The number imported
    is the number of rows whose insert did not fail.  Imported and skipped
    together exceed the number of rows by the number of rows whose batch
    commit failed: such a row is counted as imported and as skipped. *)
Theorem shipping_counts df omap batch_size d shipped skipped d' journal :
  import_shipping df omap batch_size d = Ok (shipped, skipped, d', journal) ->
  shipped = length (filter accepted journal)
  /\ (shipped + skipped
      = length (records df) + length (filter commit_failed journal))%nat.
Proof.
  intros (d1 & Hloop)%import_shipping_Ok.
  destruct (shipping_loop_counts _ _ _ _ _ Hloop) as (H1 & H2 & _).
  simpl in *. rewrite length_iterrows in H2. done.
Qed.

(** X13: when the fact passes commit.  In a completed order pass an
    iteration commits exactly when its insert did not fail and the number
    of orders imported so far, this row included, is a multiple of the
    batch size, zero included; in a completed shipping pass, exactly when
    its insert did not fail and the number of inserts that did not fail so
    far is a multiple of the batch size. *)
Theorem commits_follow_batch_size df customer_map product_map omap batch_size
    d1 st d1' j1 d2 shipped skipped d2' j2 :
  import_orders df customer_map product_map batch_size d1 = Ok (st, d1', j1) ->
  import_shipping df omap batch_size d2 = Ok (shipped, skipped, d2', j2) ->
  (forall idx evs,
      j1 !! idx = Some evs ->
      committing evs = true <->
      accepted evs = true
      /\ Z.of_nat (length (filter answered (take (S idx) j1)))
         mod batch_size = 0)
  /\ forall idx evs,
      j2 !! idx = Some evs ->
      committing evs = true <->
      accepted evs = true
      /\ Z.of_nat (length (filter accepted (take (S idx) j2)))
         mod batch_size = 0.
Proof.
  intros (? & Ho)%import_orders_Ok (? & Hs)%import_shipping_Ok.
  destruct (order_loop_counts _ _ _ _ _ _ Ho) as (_ & H1 & _).
  destruct (shipping_loop_counts _ _ _ _ _ Hs) as (_ & _ & H2 & _).
  done.
Qed.

Lemma filter_all_false {A} (f : A -> bool) (l : list A) :
  (forall a, a ∈ l -> f a = true -> False) -> filter f l = [].
Proof.
  intros Hl. apply filter_none. intros a Ha Hf. apply (Hl a Ha).
  by apply Is_true_true.
Qed.

(** X14: a batch size of zero.  A fact pass that completes with batch
    size 0 has imported nothing: every insert it sent failed, the order
    map is empty, and the shipping pass counts every row as skipped. *)
Theorem zero_batch_size_imports_nothing df customer_map product_map omap
    d1 st d1' j1 d2 shipped skipped d2' j2 :
  import_orders df customer_map product_map 0 d1 = Ok (st, d1', j1) ->
  import_shipping df omap 0 d2 = Ok (shipped, skipped, d2', j2) ->
  order_map st = ∅
  /\ (forall evs, evs ∈ j1 -> accepted evs = false)
  /\ shipped = 0%nat
  /\ skipped = length (records df)
  /\ forall evs, evs ∈ j2 -> accepted evs = false.
Proof.
  intros (? & Ho)%import_orders_Ok (? & Hs)%import_shipping_Ok.
  destruct (order_loop_counts _ _ _ _ _ _ Ho) as (Hp & _ & Hbs1).
  destruct (order_loop_tallies _ _ _ _ _ _ Ho) as (Hsize & _).
  destruct (shipping_loop_counts _ _ _ _ _ Hs) as (Hn & Hsum & _ & Hbs2).
  simpl in *.
  assert (forall evs, evs ∈ j1 -> accepted evs = false) as Hj1.
  { intros evs Hin. destruct (accepted evs) eqn:E; [|done].
    by destruct (Hbs1 evs Hin E). }
  assert (forall evs, evs ∈ j2 -> accepted evs = false) as Hj2.
  { intros evs Hin. destruct (accepted evs) eqn:E; [|done].
    by destruct (Hbs2 evs Hin E). }
  assert (filter answered j1 = []) as Ha.
  { apply filter_all_false. intros evs Hin Hans.
    specialize (Hj1 evs Hin). unfold answered, accepted in *.
    apply existsb_exists in Hans as ([] & Hin' & He); try done.
    destruct y; try done.
    assert (existsb (fun e => match e with
                              | Execute _ (Fetched _) | Execute _ NoRow => true
                              | _ => false
                              end) evs = true) as Hacc
      by (apply existsb_exists; eexists; split; [exact Hin'|done]).
    congruence. }
  assert (filter accepted j2 = []) as Hb.
  { apply filter_all_false. intros evs Hin Hacc.
    specialize (Hj2 evs Hin). congruence. }
  assert (filter commit_failed j2 = []) as Hc.
  { apply filter_all_false. intros evs Hin Hcf.
    assert (committing evs = true) as Hcm.
    { unfold commit_failed, committing in *.
      apply existsb_exists in Hcf as ([] & Hin' & He); try done.
      apply existsb_exists. eexists. split; [exact Hin'|done]. }
    apply list_elem_of_lookup_1 in Hin as [idx Hidx].
    destruct (shipping_loop_counts _ _ _ _ _ Hs) as (_ & _ & Hcad & _).
    apply (Hcad idx evs Hidx) in Hcm as [Hacc _].
    apply list_elem_of_lookup_2 in Hidx. specialize (Hj2 evs Hidx).
    congruence. }
  rewrite Ha in Hp. rewrite Hb in Hn. rewrite Hc in Hsum. simpl in *.
  split.
  { apply map_size_empty_inv. lia. }
  split; [done|]. split; [done|]. split; [|done].
  rewrite length_iterrows in Hsum. lia.
Qed.

(** *** What stops a fact pass *)










(** *** The pipeline *)

Lemma run_Ok df batch_size d rep d' :
  run df batch_size d = Ok (rep, d') ->
  exists dc dp do,
    import_customers df d
    = Ok ((customer_pass rep).1.1, (customer_pass rep).1.2, dc,
          (customer_pass rep).2)
    /\ import_products df dc
       = Ok ((product_pass rep).1.1, (product_pass rep).1.2, dp,
             (product_pass rep).2)
    /\ import_orders df (customer_pass rep).1.1 (product_pass rep).1.1
         batch_size dp
       = Ok ((order_pass rep).1, do, (order_pass rep).2)
    /\ import_shipping df (order_map (order_pass rep).1) batch_size do
       = Ok ((shipping_pass rep).1.1, (shipping_pass rep).1.2, d',
             (shipping_pass rep).2).
Proof.
  unfold run.
  intros ([[[cm nc] dc] jc] & Hc & ([[[pm np] dp] jp] & Hp
          & ([[st do] jo] & Ho & ([[[n1 n2] ds] js] & Hs & ?)%rbind_Ok)
              %rbind_Ok)%rbind_Ok)%rbind_Ok.
  simplify_eq/=. by exists dc, dp, do.
Qed.

(** X17: in a completed import every reference sent to the sink is a
    key the sink gave earlier in the same import.  Each insert into orders
    carries a customer key that came back for an insert into customers
    and a product key that came back for an insert into products; each
    insert into shipping_details carries the key that came back for the
    insert into orders of the same row. *)
Theorem run_references_returned_keys df batch_size d rep d' :
  run df batch_size d = Ok (rep, d') ->
  (forall idx evs q y,
      (order_pass rep).2 !! idx = Some evs -> Execute q y ∈ evs ->
      exists item cid pid rest evc qc evp qp,
        q = {| into := Orders;
               params := item :: IntV cid :: IntV pid :: rest |}
        /\ evc ∈ (customer_pass rep).2 /\ Execute qc (Fetched cid) ∈ evc
        /\ into qc = Customers
        /\ evp ∈ (product_pass rep).2 /\ Execute qp (Fetched pid) ∈ evp
        /\ into qp = Products)
  /\ forall idx evs q y,
      (shipping_pass rep).2 !! idx = Some evs -> Execute q y ∈ evs ->
      exists key rest evo qo,
        q = {| into := ShippingDetails; params := IntV key :: rest |}
        /\ (order_pass rep).2 !! idx = Some evo
        /\ Execute qo (Fetched key) ∈ evo
        /\ into qo = Orders.
Proof.
  intros (dc & dp & do & Hc & Hp & Ho & Hs)%run_Ok.
  destruct rep as [[[cm nc] jc] [[pm np] jp] [st jo] [[n1 n2] js]].
  simpl in *. split.
  - intros idx evs q y Hevs Hin.
    apply import_orders_Ok in Ho as (? & Ho).
    destruct (order_loop_statements _ _ _ _ _ _ _ _ _ _ Ho Hevs Hin)
      as (r & sid & name & cid & pid & item & rest
          & _ & _ & Hcid & _ & _ & Hpid & _ & -> & _).
    apply import_customers_Ok in Hc as (_ & ? & Hc).
    apply import_products_Ok in Hp as (_ & ? & Hp).
    destruct (keyed_loop_values _ _ _ customer_row_keyed _ _ _ _ _ Hc Hcid)
      as (i & rc & evc & qc & _ & _ & Hqc & Hevc & Hinc).
    destruct (keyed_loop_values _ _ _ product_row_keyed _ _ _ _ _ Hp Hpid)
      as (i' & rp & evp & qp & _ & _ & Hqp & Hevp & Hinp).
    exists item, cid, pid, rest, evc, qc, evp, qp.
    repeat split; try done.
    + by eapply list_elem_of_lookup_2.
    + unfold customer_statement in Hqc.
      destruct (rbind _ _) in Hqc; by simplify_eq.
    + by eapply list_elem_of_lookup_2.
    + unfold product_statement in Hqp.
      destruct (rbind _ _) in Hqp; by simplify_eq.
  - intros idx evs q y Hevs Hin.
    apply import_shipping_Ok in Hs as (? & Hs).
    destruct (shipping_loop_journal _ _ _ _ _ Hs) as (_ & Hst & _).
    destruct (Hst idx evs q y Hevs Hin) as (key & rest & Hkey & _ & ->).
    apply import_orders_Ok in Ho as (? & Ho).
    pose proof (order_loop_keys _ _ _ _ _ _ Ho) as [_ Hkeys].
    apply Hkeys in Hkey
      as (r & ? & ? & evo & qo & _ & _ & _ & _ & _ & Hevo & Hino).
    exists key, rest, evo, qo. repeat split; try done.
    by destruct (order_loop_statements _ _ _ _ _ _ _ _ _ _ Ho Hevo Hino)
      as (? & ? & ? & ? & ? & ? & ? & _ & _ & _ & _ & _ & _ & _ & -> & _).
Qed.

(** *** Rows and their canonical rows *)

Lemma NoDup_omap_lookup {A B} (f : A -> option B) (l : list A) i j a b c :
  NoDup (omap f l) ->
  l !! i = Some a -> l !! j = Some b -> f a = Some c -> f b = Some c -> i = j.
Proof.
  revert i j. induction l as [|x l IH]; intros i j Hnd Hi Hj Ha Hb; [done|].
  assert (forall y, y ∈ l -> f y = Some c -> f x = Some c -> False) as Hx.
  { intros y Hy Hfy Hfx. simpl in Hnd. rewrite Hfx in Hnd.
    apply NoDup_cons in Hnd as [Hnin _]. apply Hnin.
    apply list_elem_of_omap. eauto. }
  assert (NoDup (omap f l)) as Hnd'.
  { simpl in Hnd. destruct (f x); [by apply NoDup_cons in Hnd as [_ ?]|done]. }
  destruct i as [|i], j as [|j]; simpl in *; simplify_eq; try done.
  - exfalso. apply (Hx b); [by eapply list_elem_of_lookup_2|done..].
  - exfalso. apply (Hx a); [by eapply list_elem_of_lookup_2|done..].
  - f_equal. eauto.
Qed.

Lemma lookup_groupby_first key cols rs k :
  k ∈ group_keys key rs ->
  exists i, groupby_first key cols rs !! i = Some (group_first key cols rs k).
Proof.
  intros [i Hi]%list_elem_of_lookup_1. exists i.
  unfold groupby_first. by rewrite list_lookup_fmap, Hi.
Qed.

(** The product of a row whose name is a usable text. *)
Lemma product_of_row df d0 s r t :
  "Product Name" ∈ columns df ->
  loop (fun _ r s => Ok (product_row r s)) 0 (products_unique df)
    (∅, 0%nat, d0, []) = Ok s ->
  r ∈ iterrows df -> get r "Product Name" = SStr t -> unnamed r = false ->
  exists i canon,
    order_product_name r = Some (strip t)
    /\ products_unique df !! i = Some canon
    /\ canon !! "Product Name" = Some (SStr (strip t))
    /\ product_key canon = Some (strip t)
    /\ (forall j canon',
          products_unique df !! j = Some canon' ->
          canon' !! "Product Name" = Some (SStr (strip t)) -> j = i)
    /\ forall key,
        s.1.1.1 !! strip t = Some key <->
        exists evs q, s.2 !! i = Some evs /\ Execute q (Fetched key) ∈ evs.
Proof.
  intros Hcol Hloop Hr Ht Hnamed.
  destruct (iterrows_as_text _ _ _ _ _ Hr Ht) as (raw & Hraw & Hrawt).
  assert (unnamed raw = false) as Hrawn.
  { unfold unnamed in *. by rewrite Hrawt, <- Ht. }
  assert (SStr (strip t) ∈ group_keys "Product Name" (products df)) as Hk.
  { apply elem_of_product_keys; [done|]. exists raw. by rewrite Hrawt. }
  destruct (lookup_groupby_first _ (product_columns df) _ _ Hk) as [i Hi].
  destruct (product_key_of_group df _ Hcol Hk) as (name' & Hname & Hkey).
  simplify_eq.
  pose proof (NoDup_product_keys df Hcol) as Hnd.
  eexists i, _.
  split; [|split; [exact Hi|split; [|split; [exact Hkey|split]]]].
  - apply order_product_name_iff. by rewrite Ht.
  - unfold group_first. rewrite lookup_tabulate.
    rewrite decide_True by by apply name_in_product_columns.
    by rewrite decide_True.
  - intros j canon' Hj Hcanon'.
    eapply (NoDup_omap_lookup product_key); [exact Hnd|exact Hj|exact Hi| |exact Hkey].
    unfold product_key, item. rewrite Hcanon'. simpl. by rewrite strip_idem.
  - intros key.
    destruct (keyed_loop_count _ _ _ product_row_keyed _ _ _ Hnd Hloop)
      as [_ Hkeys].
    rewrite Hkeys. split.
    + intros (i' & r' & evs & q & Hr' & Hk' & Hevs & Hin).
      assert (i' = i) as ->
        by (eapply (NoDup_omap_lookup product_key); [exact Hnd|done..]).
      eauto.
    + intros (evs & q & Hevs & Hin). eexists i, _, evs, q. eauto.
Qed.

(** The customer of a row whose id is an integer. *)
Lemma customer_of_row df d0 s r z :
  NoDup (omap row_id (customer_rows df)) ->
  int_of_float (float_of_Z z) = Ok z ->
  "Customer Id" ∈ columns df ->
  loop (fun _ r s => Ok (customer_row r s)) 0 (customer_rows df)
    (∅, 0%nat, d0, []) = Ok s ->
  r ∈ iterrows df -> get r "Customer Id" = SInt z ->
  exists i canon,
    source_customer_id r = Ok (Some z)
    /\ customer_rows df !! i = Some canon
    /\ row_id canon = Some z
    /\ (forall j canon',
          customer_rows df !! j = Some canon' -> row_id canon' = Some z ->
          j = i)
    /\ forall key,
        s.1.1.1 !! z = Some key <->
        exists evs q, s.2 !! i = Some evs /\ Execute q (Fetched key) ∈ evs.
Proof.
  intros Hnd Hexact Hcol Hloop Hr Hz.
  destruct (iterrows_as_int _ _ _ _ _ Hr Hz) as (raw & Hraw & Hrawz).
  destruct (group_keys_complete "Customer Id" (customers df)
              (select (customer_columns df) raw)) as (k & Hk & Hh).
  { unfold customers. apply list_elem_of_filter.
    rewrite get_select by by apply id_in_customer_columns.
    split; [by rewrite Hrawz|by apply list_elem_of_fmap_2]. }
  { rewrite get_select by by apply id_in_customer_columns. by rewrite Hrawz. }
  rewrite get_select, Hrawz in Hh by by apply id_in_customer_columns.
  apply hash_key_int in Hh.
  destruct (lookup_groupby_first _ (customer_columns df) _ _ Hk) as [i Hi].
  destruct (lookup_iterrows_as (dtype_of df <$> customer_columns df) _ _ _ Hi)
    as (canon & Hcanon & Hc).
  assert (group_first "Customer Id" (customer_columns df) (customers df) k
            !! "Customer Id" = Some k) as Hid.
  { unfold group_first. rewrite lookup_tabulate.
    rewrite decide_True by by apply id_in_customer_columns.
    by rewrite decide_True. }
  assert (row_id canon = Some z) as Hrow.
  { unfold row_id, item. destruct Hc as [-> | ->].
    - rewrite Hid. simpl. by rewrite Hh.
    - rewrite lookup_upcast_row, Hid. simpl.
      destruct k as [|f|z'|t]; try (change (upcast ?v) with v; by rewrite Hh).
      simpl in Hh. injection Hh as ->. simpl. by rewrite Hexact. }
  exists i, canon.
  split; [apply source_customer_id_Some; by rewrite Hz|].
  split; [done|]. split; [done|]. split.
  - intros j canon' Hj Hrow'.
    by eapply (NoDup_omap_lookup row_id); [exact Hnd|..].
  - intros key.
    destruct (keyed_loop_count _ _ _ customer_row_keyed _ _ _ Hnd Hloop)
      as [_ Hkeys].
    rewrite Hkeys. split.
    + intros (i' & r' & evs & q & Hr' & Hk' & Hevs & Hin).
      assert (i' = i) as ->
        by (eapply (NoDup_omap_lookup row_id); [exact Hnd|done..]).
      eauto.
    + intros (evs & q & Hevs & Hin). exists i, canon, evs, q. eauto.
Qed.

(** X18: a row whose name is a usable text finds its product.  The order
    loop looks the row up under its trimmed name; exactly one canonical
    product bears that name, and the product map holds for the name
    exactly the key that came back for the insert of that product: the
    lookup fails only when no key came back. *)
Theorem named_row_finds_its_product df d product_map imported d1 journal r t :
  import_products df d = Ok (product_map, imported, d1, journal) ->
  r ∈ iterrows df -> get r "Product Name" = SStr t -> unnamed r = false ->
  exists i canon,
    order_product_name r = Some (strip t)
    /\ products_unique df !! i = Some canon
    /\ canon !! "Product Name" = Some (SStr (strip t))
    /\ (forall j canon',
          products_unique df !! j = Some canon' ->
          canon' !! "Product Name" = Some (SStr (strip t)) -> j = i)
    /\ forall key,
        product_map !! strip t = Some key <->
        exists evs q, journal !! i = Some evs /\ Execute q (Fetched key) ∈ evs.
Proof.
  intros (Hcol & d' & Hloop)%import_products_Ok Hr Ht Hnamed.
  destruct (product_of_row df _ _ r t Hcol Hloop Hr Ht Hnamed)
    as (i & canon & ? & ? & ? & _ & ? & ?).
  by exists i, canon.
Qed.

(** X19: a row that the order loop sees with an integer id finds its
    customer.  When the canonical customers are filed under pairwise
    distinct integer ids, and the id of the row is an integer that a
    float holds exactly, exactly one canonical customer is filed under
    that id, and the customer map holds for the id exactly the key that
    came back for the insert of that customer. *)
Theorem identified_row_finds_its_customer df d customer_map imported d1
    journal r z :
  NoDup (omap row_id (customer_rows df)) ->
  int_of_float (float_of_Z z) = Ok z ->
  import_customers df d = Ok (customer_map, imported, d1, journal) ->
  r ∈ iterrows df -> get r "Customer Id" = SInt z ->
  exists i canon,
    source_customer_id r = Ok (Some z)
    /\ customer_rows df !! i = Some canon
    /\ row_id canon = Some z
    /\ (forall j canon',
          customer_rows df !! j = Some canon' -> row_id canon' = Some z ->
          j = i)
    /\ forall key,
        customer_map !! z = Some key <->
        exists evs q, journal !! i = Some evs /\ Execute q (Fetched key) ∈ evs.
Proof.
  intros Hnd Hexact (Hcol & d' & Hloop)%import_customers_Ok Hr Hz.
  apply (customer_of_row df _ _ r z Hnd Hexact Hcol Hloop Hr Hz).
Qed.

(** *** When the dimension passes commit *)




(** *** The whole import *)

(** An iteration of the order loop whose two keys are found sends its
    statement. *)
Lemma order_row_sent customer_map product_map batch_size idx r st d x
    sid cid name pid :
  order_row customer_map product_map batch_size idx r (st, d) = Ok x ->
  source_customer_id r = Ok (Some sid) ->
  customer_map !! sid = Some cid -> cid <> 0 ->
  order_product_name r = Some name ->
  product_map !! name = Some pid -> pid <> 0 ->
  exists q y d0 d1, execute d0 q = (y, d1) /\ Execute q y ∈ x.2.
Proof.
  intros H Hsid Hcid Hcnz Hname Hpid Hpnz.
  assert (truthy (Some sid ≫= (customer_map !!.)) = true) as Htc
    by (simpl; rewrite Hcid; simpl; by apply negb_true_iff, Z.eqb_neq).
  assert (truthy (Some name ≫= (product_map !!.)) = true) as Htp
    by (simpl; rewrite Hpid; simpl; by apply negb_true_iff, Z.eqb_neq).
  order_cases H; rewrite Hsid in Hsid0; simplify_eq;
    rewrite ?Hname in *; simpl in *; try congruence.
  - eexists _, _, _, _. split; [exact Hexec|]. in_events.
  - eexists _, _, _, _. split; [exact Hexec|]. in_events.
  - eexists _, _, _, _. split; [exact Hexec|]. in_events.
Qed.

(** An iteration of the shipping loop whose order key is found sends its
    statement. *)
Lemma shipping_row_sent omap batch_size idx r s x :
  shipping_row omap batch_size idx r s = Ok x ->
  truthy (omap !! idx) = true ->
  exists q y, Execute q y ∈ x.2.
Proof.
  intros H Ht. shipping_cases H; try congruence.
  - eexists _, _. in_events.
  - eexists _, _. in_events.
  - eexists _, _. in_events.
Qed.

(** X21: every resolvable row is imported.  With a sink that answers
    every insert with a key that is not zero, in a completed import whose
    canonical customers are filed under pairwise distinct integer ids, a
    row that the order loop sees with an integer id that a float holds
    exactly and with a usable text as its name, and whose canonical
    customer and product have fields that convert, gets an order, and a
    shipping row that refers to it. *)
Theorem run_imports_resolvable_rows df batch_size d rep d' idx r z t :
  (forall d q, exists key, (execute d q).1 = Fetched key /\ key <> 0) ->
  NoDup (omap row_id (customer_rows df)) ->
  int_of_float (float_of_Z z) = Ok z ->
  run df batch_size d = Ok (rep, d') ->
  iterrows df !! idx = Some r ->
  get r "Customer Id" = SInt z ->
  get r "Product Name" = SStr t -> unnamed r = false ->
  (forall canon,
      canon ∈ customer_rows df -> row_id canon = Some z ->
      is_Some (customer_statement canon)) ->
  (forall canon,
      canon ∈ products_unique df ->
      product_key canon = Some (strip t) ->
      is_Some (product_statement canon)) ->
  exists key evs rest y,
    order_map (order_pass rep).1 !! idx = Some key
    /\ (shipping_pass rep).2 !! idx = Some evs
    /\ Execute {| into := ShippingDetails; params := IntV key :: rest |} y
       ∈ evs.
Proof.
  intros Hsink Hnd Hexact (dc & dp & do & Hc & Hp & Ho & Hs)%run_Ok
    Hr Hz Ht Hnamed Hcs Hps.
  destruct rep as [[[cm nc] jc] [[pm np] jp] [st jo] [[n1 n2] js]].
  simpl in *.
  assert (r ∈ iterrows df) as Hin by by eapply list_elem_of_lookup_2.
  apply import_customers_Ok in Hc as (Hcolc & ? & Hc).
  apply import_products_Ok in Hp as (Hcolp & ? & Hp).
  apply import_orders_Ok in Ho as (? & Ho).
  apply import_shipping_Ok in Hs as (? & Hs).
  (* the customer key *)
  destruct (customer_of_row df _ _ r z Hnd Hexact Hcolc Hc Hin Hz)
    as (i & canon & Hsid & Hcanon & Hrow & _ & Hckeys). simpl in Hckeys.
  destruct (keyed_loop_journal _ _ _ customer_row_keyed _ _ _ Hc)
    as [Hlenc Hjc]. simpl in *.
  destruct (lookup_lt_is_Some_2 jc i) as [evc Hevc].
  { rewrite Hlenc. by eapply lookup_lt_Some. }
  destruct (Hjc i evc Hevc) as (canon' & Hcanon' & Hcase).
  rewrite Hcanon in Hcanon'. injection Hcanon' as <-.
  destruct Hcase
    as [[Hnone _]|(qc & yc & cs & d0 & d1 & Hqc & -> & Hexc & _)].
  { destruct (Hcs canon (list_elem_of_lookup_2 _ _ _ Hcanon) Hrow)
      as [? E]. congruence. }
  destruct (Hsink d0 qc) as (ckey & Hck & Hcnz). rewrite Hexc in Hck.
  simpl in Hck. subst yc.
  assert (cm !! z = Some ckey) as Hcm.
  { apply Hckeys. exists (Execute qc (Fetched ckey) :: cs), qc.
    split; [done|left]. }
  (* the product key *)
  destruct (product_of_row df _ _ r t Hcolp Hp Hin Ht Hnamed)
    as (i' & pcanon & Hname & Hpcanon & _ & Hpkey & _ & Hpkeys).
  simpl in Hpkeys.
  destruct (keyed_loop_journal _ _ _ product_row_keyed _ _ _ Hp)
    as [Hlenp Hjp]. simpl in *.
  destruct (lookup_lt_is_Some_2 jp i') as [evp Hevp].
  { rewrite Hlenp. by eapply lookup_lt_Some. }
  destruct (Hjp i' evp Hevp) as (pcanon' & Hpcanon' & Hcase).
  rewrite Hpcanon in Hpcanon'. injection Hpcanon' as <-.
  destruct Hcase
    as [[Hnone _]|(qp & yp & cs' & d2 & d3 & Hqp & -> & Hexp & _)].
  { destruct (Hps pcanon (list_elem_of_lookup_2 _ _ _ Hpcanon))
      as [? E]; [done|congruence]. }
  destruct (Hsink d2 qp) as (pkey & Hpk & Hpnz). rewrite Hexp in Hpk.
  simpl in Hpk. subst yp.
  assert (pm !! strip t = Some pkey) as Hpm.
  { apply Hpkeys. exists (Execute qp (Fetched pkey) :: cs'), qp.
    split; [done|left]. }
  (* the order *)
  destruct (loop_journal_rows _
              (fun _ r evs =>
                 forall sid cid name pid,
                   source_customer_id r = Ok (Some sid) ->
                   cm !! sid = Some cid -> cid <> 0 ->
                   order_product_name r = Some name ->
                   pm !! name = Some pid -> pid <> 0 ->
                   exists q y d0 d1,
                     execute d0 q = (y, d1) /\ Execute q y ∈ evs)
              order_state0 dp
              ltac:(intros ? ? [? ?] ? ? ? ? ? ?; by eapply order_row_sent)
              _ _ Ho) as [Hleno Hjo]. simpl in *.
  destruct (lookup_lt_is_Some_2 jo idx) as [evo Hevo].
  { rewrite Hleno. by eapply lookup_lt_Some. }
  destruct (Hjo idx evo Hevo) as (r' & Hr' & Hsent).
  rewrite Hr in Hr'. injection Hr' as <-.
  destruct (Hsent _ _ _ _ Hsid Hcm Hcnz Hname Hpm Hpnz)
    as (qo & yo & d4 & d5 & Hexo & Hino).
  destruct (Hsink d4 qo) as (okey & Hok & Honz). rewrite Hexo in Hok.
  simpl in Hok. subst yo.
  assert (order_map st !! idx = Some okey) as Hom.
  { apply (order_loop_keys _ _ _ _ _ _ Ho).
    exists r, z, (strip t), evo, qo.
    repeat split; eauto. }
  (* the shipping row *)
  assert (forall (i : nat) (r0 : row) s x,
             shipping_row (order_map st) batch_size i r0 s = Ok x ->
             truthy (order_map st !! i) = true ->
             exists q y, Execute q y ∈ x.2) as HQ
    by (intros; by eapply shipping_row_sent).
  destruct (loop_journal_rows _
              (fun idx _ evs =>
                 truthy (order_map st !! idx) = true ->
                 exists q y, Execute q y ∈ evs)
              _ _ HQ _ _ Hs) as [Hlens Hjs]. simpl in *.
  destruct (lookup_lt_is_Some_2 js idx) as [evs Hevs].
  { rewrite Hlens. by eapply lookup_lt_Some. }
  destruct (Hjs idx evs Hevs) as (_ & _ & Hship).
  destruct Hship as (qs & ys & Hins).
  { rewrite Hom. simpl. by apply negb_true_iff, Z.eqb_neq. }
  destruct (shipping_loop_journal _ _ _ _ _ Hs) as (_ & Hst & _).
  destruct (Hst idx evs qs ys Hevs Hins) as (key & rest & Hkey & _ & ->).
  simpl in *. simplify_eq. by exists okey, evs, rest, ys.
Qed.

End Pipeline.

(** ** The claims on sample data *)

Ltac run := vm_compute; reflexivity.


Ltac decided := apply (bool_decide_unpack _); vm_compute; exact I.

(** The order pass on the example of C1: with the customer map {1: 101} and
    the product map {Widget: 501}, the line of customer 1 gives one order
    and the line of customer 2 is skipped under no_customer. *)
Lemma widget_run :
  import_orders serial_execute commit_ok widget_orders
    widget_customers widget_products 1000 7
  = Ok (widget_state, 8, widget_journal).
Proof. run. Qed.


(** Against C2 as stated: of two lines of customer 1, the first without an
    email, the canonical customer is not the first line; it has the first
    name of the first line and the email of the second. *)
Lemma canonical_customer_is_merged :
  rows ann_bob !! 0%nat = Some ann_first
  /\ customers_unique nan_fill ann_bob = [ann_bob_canonical]
  /\ ann_bob_canonical <> ann_first
  /\ ann_first !! "Customer Email" = Some (SFloat S754_nan)
  /\ ann_bob_canonical !! "Customer Email" = Some (SStr "bob@x.org")
  /\ ann_bob_canonical !! "Customer Fname" = Some (SStr "Ann").
Proof.
  assert (ann_first !! "Customer Email" = Some (SFloat S754_nan)) as H1 by run.
  assert (ann_bob_canonical !! "Customer Email" = Some (SStr "bob@x.org"))
    as H2 by run.
  split; [run|]. split; [run|]. split; [|split; [done|split; [done|run]]].
  intros E. rewrite E in H2. rewrite H1 in H2. discriminate.
Qed.

Lemma canonical_customer_first_values_witness :
  exists canon,
    filter (fun r => hash_key (get r "Customer Id") = hash_key (SInt 1))
      (customers_unique nan_fill ann_bob) = [canon]
    /\ (forall c,
        c ∈ customer_cols -> c ∈ columns ann_bob ->
        (exists i r,
            bearing ann_bob (SInt 1) !! i = Some r /\ notna (get r c) = true
            /\ (forall j r', (j < i)%nat ->
                             bearing ann_bob (SInt 1) !! j = Some r' ->
                             isna (get r' c) = true)
            /\ canon !! c = Some (get r c))
        \/ ((forall r, r ∈ bearing ann_bob (SInt 1) -> isna (get r c) = true)
            /\ canon !! c = Some (nan_fill c)))
    /\ forall r0,
        bearing ann_bob (SInt 1) !! 0%nat = Some r0 ->
        (forall c, c ∈ customer_cols -> c ∈ columns ann_bob ->
                   notna (get r0 c) = true) ->
        canon = select (customer_columns ann_bob) r0.
Proof.
  apply (canonical_customer_first_values nan_fill ann_bob (SInt 1)).
  - apply list_elem_of_here.
  - reflexivity.
  - intros E. apply (f_equal length) in E. vm_compute in E. discriminate.
Defined.

(** Against C3 as stated: an insert that gives neither a key nor an error
    leaves its row in none of the four buckets. *)
Lemma tallies_miss_answerless_insert :
  import_orders scripted_execute commit_ok one_order
    widget_customers widget_products 1000 [NoRow]
  = Ok (order_state0, [],
        [[CustomerGet (Some 1); ProductGet (Some "Widget");
          Execute widget_insert NoRow; Commit true]])
  /\ (no_customer order_state0 + no_product order_state0 + error order_state0
      + size (order_map order_state0))%nat = 0%nat
  /\ length (records one_order) = 1%nat.
Proof. split; [run|]. split; run. Qed.

Lemma order_tallies_partition_witness :
  import_orders serial_execute commit_ok widget_orders
    widget_customers widget_products 1000 7
  = Ok (widget_state, 8, widget_journal)
  /\ (no_customer widget_state + no_product widget_state + error widget_state
      + size (order_map widget_state))%nat
     = length (records widget_orders).
Proof.
  split; [run|].
  apply (order_tallies_partition serial_execute commit_ok widget_orders
           widget_customers widget_products 1000 7 widget_state 8
           widget_journal).
  - intros d q. simpl. discriminate.
  - intros d. reflexivity.
  - run.
Defined.

(** Against C4 as stated: for the line of customer 2, who is not in the
    customer map, the product map is looked up all the same. *)
Lemma product_lookup_made_for_unknown_customer :
  import_orders serial_execute commit_ok widget_orders
    widget_customers widget_products 1000 7
  = Ok (widget_state, 8, widget_journal)
  /\ widget_customers !! 2 = None
  /\ widget_journal !! 1%nat
     = Some [CustomerGet (Some 2); ProductGet (Some "Widget")].
Proof. split; [run|]. split; run. Qed.

Lemma customer_failure_skips_row_witness :
  no_customer widget_state
  = length (filter (customer_fails widget_customers) (iterrows widget_orders))
  /\ no_product widget_state
     = length (filter (fun r => negb (customer_fails widget_customers r)
                                && product_fails widget_products r)
                 (iterrows widget_orders))
  /\ forall idx r,
      iterrows widget_orders !! idx = Some r ->
      customer_fails widget_customers r = true ->
      exists source_id,
        source_customer_id r = Ok source_id
        /\ widget_journal !! idx
           = Some [CustomerGet source_id; ProductGet (order_product_name r)].
Proof.
  apply (customer_failure_skips_row serial_execute commit_ok widget_orders
           widget_customers widget_products 1000 7 widget_state 8
           widget_journal).
  run.
Defined.

(** The product pass on [mixed_names] keeps one product, Widget. *)
Lemma mixed_names_run :
  import_products nan_fill serial_execute commit_ok mixed_names 501
  = Ok ({["Widget" := 501]}, 1%nat, 502,
        [[Execute {| into := Products;
                     params := [TextV "Widget"; Null; Null; Null; Null; Null;
                                Null; Null] |} (Fetched 501)]]).
Proof. run. Qed.

Lemma unnamed_products_unresolvable_witness :
  (forall name,
      is_Some (({["Widget" := 501]} : gmap string Z) !! name) ->
      name <> "" /\ name <> "nan"
      /\ exists r, r ∈ products_unique nan_fill mixed_names
                   /\ r !! "Product Name" = Some (SStr name))
  /\ forall customer_map batch_size (d2 : Z) st d3 j2 idx r,
      import_orders serial_execute commit_ok mixed_names customer_map
        {["Widget" := 501]} batch_size d2 = Ok (st, d3, j2) ->
      iterrows mixed_names !! idx = Some r -> unnamed r = true ->
      order_map st !! idx = None.
Proof.
  destruct (unnamed_products_unresolvable nan_fill serial_execute commit_ok
              mixed_names 501 {["Widget" := 501]} 1%nat 502
              [[Execute {| into := Products;
                           params := [TextV "Widget"; Null; Null; Null; Null;
                                      Null; Null; Null] |} (Fetched 501)]])
    as (_ & H2 & H3); [run|].
  split; [exact H2|].
  intros customer_map batch_size d2 st d3 j2 idx r. apply H3.
Defined.

Lemma shipping_only_for_mapped_orders_witness :
  let journal := [[OrderGet 0; Execute (shipping_insert 7) (Fetched 1)];
                  [OrderGet 1]] in
  length journal = length (records widget_orders)
  /\ (forall idx evs q y,
        journal !! idx = Some evs -> Execute q y ∈ evs ->
        exists key rest,
          widget_order_map !! idx = Some key /\ key <> 0
          /\ q = {| into := ShippingDetails; params := IntV key :: rest |})
  /\ (forall idx,
        (idx < length (records widget_orders))%nat ->
        widget_order_map !! idx = None ->
        journal !! idx = Some [OrderGet idx])
  /\ 1%nat
     = (length (filter (fun idx => negb (truthy (widget_order_map
                                                   !! idx)))
                  (seq 0 (length (records widget_orders))))
        + length (filter db_error journal))%nat.
Proof.
  apply (shipping_only_for_mapped_orders serial_execute commit_ok
           widget_orders widget_order_map 1000 1 1%nat 1%nat 2).
  run.
Defined.

(** The failing input of C8 through the whole customer pass: customer 7,
    whose email field is empty, is inserted with the email nan. *)
Lemma no_email_import :
  customers_unique nan_fill no_email = [no_email_canonical]
  /\ import_customers nan_fill serial_execute commit_ok no_email 1
     = Ok ({[7 := 1]}, 1%nat, 2, [[Execute (customer_insert "nan") (Fetched 1)]]).
Proof. split; run. Qed.

Lemma absent_email_is_rendered_witness :
  exists rest,
    params (customer_insert "nan") = TextV (py_str (SFloat S754_nan)) :: rest
    /\ (py_str (SFloat S754_nan) = "nan" \/ py_str (SFloat S754_nan) = "None")
    /\ py_str (SFloat S754_nan) <> placeholder_email 7.
Proof.
  apply (absent_email_is_rendered no_email_canonical 7 (SFloat S754_nan)
           (params (customer_insert "nan"))); run.
Defined.

(** Against C9 as stated: of two lines with the ids 3.7 and 3.2 both
    canonical customers are filed under 3; the pass counts 2 and returns
    a key map with one entry. *)
Lemma imported_exceeds_key_map :
  import_customers nan_fill serial_execute commit_ok fractional_ids 101
  = Ok ({[3 := 102]}, 2%nat, 103,
        [[Execute (customer_insert "customer_3@placeholder.com") (Fetched 101)];
         [Execute (customer_insert "customer_3@placeholder.com") (Fetched 102)]])
  /\ size ({[3 := 102]} : gmap Z Z) = 1%nat.
Proof. split; run. Qed.

Lemma imported_counts_key_map_witness :
  processed widget_state = size (order_map widget_state)
  /\ (forall n, exists s,
         loop (order_row serial_execute commit_ok widget_customers
                 widget_products 1000)
           0 (take n (iterrows widget_orders)) (order_state0, 7, []) = Ok s
         /\ processed s.1.1 = size (order_map s.1.1))
  /\ (size widget_customer_map <= 2)%nat
  /\ 2%nat = size widget_customer_map
  /\ forall n, exists s,
      loop (fun _ r s => Ok (customer_row serial_execute commit_ok r s))
        0 (take n (customer_rows nan_fill widget_orders))
        (∅, 0%nat, 101, []) = Ok s
      /\ s.1.1.2 = size s.1.1.1.
Proof.
  destruct (imported_counts_key_map nan_fill serial_execute commit_ok
              widget_orders 101 widget_customer_map 2%nat 103
              widget_customer_journal
              widget_customers widget_products 1000 7 widget_state 8
              widget_journal) as (H1 & H2 & H3 & H4); [run|run|].
  split; [exact H1|]. split; [exact H2|]. split; [exact H3|].
  apply H4. decided.
Defined.


(** ** The frame on sample data *)

(** In a frame of numbers with a float column, [iterrows] hands every
    value over as a float: the product whose name is the integer 123 is
    filed under the text 123, the order loop looks it up under 123.0, and
    the row is tallied under no_product. *)
Lemma integer_name_is_looked_up_as_float :
  (fun r => get r "Product Name") <$> rows numbers_only = [SInt 123]
  /\ (fun r => py_str (get r "Product Name")) <$> iterrows numbers_only
     = ["123.0"]
  /\ import_products nan_fill serial_execute commit_ok numbers_only 501
     = Ok ({["123" := 501]}, 1%nat, 502,
           [[Execute (product_insert "123") (Fetched 501)]])
  /\ import_orders serial_execute commit_ok numbers_only
       {[1 := 101]} {["123" := 501]} 1000 7
     = Ok ({| order_map := ∅; processed := 0; no_customer := 0;
              no_product := 1; error := 0 |}, 7,
           [[CustomerGet (Some 1); ProductGet (Some "123.0")]]).
Proof. split; [run|]. split; [run|]. split; run. Qed.

(** The ids -0.0 and 0.0 are one key: the two lines have one canonical
    customer, which bears the id of the first. *)
Lemma signed_zeros_are_one_customer :
  customers_unique nan_fill signed_zeros
  = [list_to_map [("Customer Id", SFloat (S754_zero true))]].
Proof. run. Qed.

(** ** The further properties on sample data *)

Lemma clean_int_truncates_witness :
  exists f,
    clean_numeric (SStr "-5.9") = Ok (Some f) /\
    match f with
    | S754_zero _ => -5 = 0
    | S754_finite s m e =>
        -5 = cond_Zopp s (Z.abs (-5))
        /\ (0 <= e -> Z.abs (-5) = Zpos m * 2 ^ e)
        /\ (e < 0 ->
            Z.abs (-5) * 2 ^ (- e) <= Zpos m < (Z.abs (-5) + 1) * 2 ^ (- e))
    | _ => False
    end.
Proof. apply (clean_int_truncates (SStr "-5.9") (-5)). run. Defined.

Lemma canonical_product_names_witness :
  NoDup ((fun r => get r "Product Name") <$> products_unique nan_fill mixed_names)
  /\ forall k,
      k ∈ (fun r => get r "Product Name") <$> products_unique nan_fill mixed_names
      <-> exists raw,
            raw ∈ rows mixed_names /\ unnamed raw = false
            /\ k = SStr (strip (py_str (get raw "Product Name"))).
Proof.
  apply (canonical_product_names nan_fill mixed_names).
  apply list_elem_of_further, list_elem_of_here.
Defined.

Lemma customer_map_holds_returned_keys_witness :
  import_customers nan_fill serial_execute commit_ok widget_orders 101
  = Ok (widget_customer_map, 2%nat, 103, widget_customer_journal)
  /\ forall source_id key,
      widget_customer_map !! source_id = Some key <->
      exists i r evs q,
        customer_rows nan_fill widget_orders !! i = Some r
        /\ row_id r = Some source_id
        /\ widget_customer_journal !! i = Some evs
        /\ Execute q (Fetched key) ∈ evs.
Proof.
  split; [run|].
  apply (customer_map_holds_returned_keys nan_fill serial_execute commit_ok
           widget_orders 101 widget_customer_map 2%nat 103
           widget_customer_journal); [decided|run].
Defined.

Lemma product_map_holds_returned_keys_witness :
  1%nat = size ({["Widget" := 501]} : gmap string Z)
  /\ forall name key,
      ({["Widget" := 501]} : gmap string Z) !! name = Some key <->
      exists i r evs q,
        products_unique nan_fill mixed_names !! i = Some r
        /\ r !! "Product Name" = Some (SStr name)
        /\ widget_product_journal 501 !! i = Some evs
        /\ Execute q (Fetched key) ∈ evs.
Proof.
  apply (product_map_holds_returned_keys nan_fill serial_execute commit_ok
           mixed_names 501 {["Widget" := 501]} 1%nat 502
           (widget_product_journal 501)); run.
Defined.

Lemma dimension_statements_fixed_witness :
  concat (statements <$> widget_customer_journal)
  = omap customer_statement (customer_rows nan_fill widget_orders)
  /\ concat (statements <$> widget_product_journal 501)
     = omap product_statement (products_unique nan_fill widget_orders).
Proof.
  apply (dimension_statements_fixed nan_fill serial_execute commit_ok
           widget_orders 101 501 widget_customer_map 2%nat 103
           widget_customer_journal {["Widget" := 501]} 1%nat 502
           (widget_product_journal 501)); run.
Defined.

Lemma order_statements_resolved_witness :
  exists r sid name cid pid item rest,
    iterrows widget_orders !! 0%nat = Some r
    /\ source_customer_id r = Ok (Some sid)
    /\ widget_customers !! sid = Some cid /\ cid <> 0
    /\ order_product_name r = Some name
    /\ widget_products !! name = Some pid /\ pid <> 0
    /\ widget_insert
       = {| into := Orders; params := item :: IntV cid :: IntV pid :: rest |}
    /\ statements [CustomerGet (Some 1); ProductGet (Some "Widget");
                   Execute widget_insert (Fetched 7)] = [widget_insert].
Proof.
  apply (order_statements_resolved serial_execute commit_ok widget_orders
           widget_customers widget_products 1000 7 widget_state 8
           widget_journal 0%nat
           [CustomerGet (Some 1); ProductGet (Some "Widget");
            Execute widget_insert (Fetched 7)]
           widget_insert (Fetched 7)); [run|run|].
  apply list_elem_of_further, list_elem_of_further, list_elem_of_here.
Defined.

Lemma order_tallies_by_journal_witness :
  length widget_journal = length (records widget_orders)
  /\ processed widget_state = length (filter answered widget_journal)
  /\ error widget_state = length (filter db_error widget_journal).
Proof.
  apply (order_tallies_by_journal serial_execute commit_ok widget_orders
           widget_customers widget_products 1000 7 widget_state 8
           widget_journal); run.
Defined.

Lemma shipping_counts_witness :
  1%nat = length (filter accepted widget_shipping_journal)
  /\ (1 + 1
      = length (records widget_orders)
        + length (filter commit_failed widget_shipping_journal))%nat.
Proof.
  apply (shipping_counts serial_execute commit_ok widget_orders
           widget_order_map 1000 1 1%nat 1%nat 2 widget_shipping_journal); run.
Defined.

Lemma commits_follow_batch_size_witness :
  (forall idx evs,
      widget_journal_by_one !! idx = Some evs ->
      committing evs = true <->
      accepted evs = true
      /\ Z.of_nat
           (length (filter answered (take (S idx) widget_journal_by_one)))
         mod 1 = 0)
  /\ forall idx evs,
      widget_shipping_by_one !! idx = Some evs ->
      committing evs = true <->
      accepted evs = true
      /\ Z.of_nat
           (length (filter accepted (take (S idx) widget_shipping_by_one)))
         mod 1 = 0.
Proof.
  apply (commits_follow_batch_size serial_execute commit_ok widget_orders
           widget_customers widget_products widget_order_map 1 7
           widget_state 8 widget_journal_by_one
           1 1%nat 1%nat 2 widget_shipping_by_one); run.
Defined.

Lemma zero_batch_size_imports_nothing_witness :
  order_map widget_unmatched = ∅
  /\ (forall evs, evs ∈ widget_unmatched_journal -> accepted evs = false)
  /\ 0%nat = 0%nat
  /\ 2%nat = length (records widget_orders)
  /\ forall evs, evs ∈ [[OrderGet 0]; [OrderGet 1]] -> accepted evs = false.
Proof.
  apply (zero_batch_size_imports_nothing serial_execute commit_ok
           widget_orders ∅ ∅ ∅ 7 widget_unmatched 7 widget_unmatched_journal
           1 0%nat 2%nat 1 [[OrderGet 0]; [OrderGet 1]]); run.
Defined.



Lemma run_references_returned_keys_witness :
  (forall idx evs q y,
      (order_pass widget_report).2 !! idx = Some evs -> Execute q y ∈ evs ->
      exists item cid pid rest evc qc evp qp,
        q = {| into := Orders;
               params := item :: IntV cid :: IntV pid :: rest |}
        /\ evc ∈ (customer_pass widget_report).2
        /\ Execute qc (Fetched cid) ∈ evc
        /\ into qc = Customers
        /\ evp ∈ (product_pass widget_report).2
        /\ Execute qp (Fetched pid) ∈ evp
        /\ into qp = Products)
  /\ forall idx evs q y,
      (shipping_pass widget_report).2 !! idx = Some evs -> Execute q y ∈ evs ->
      exists key rest evo qo,
        q = {| into := ShippingDetails; params := IntV key :: rest |}
        /\ (order_pass widget_report).2 !! idx = Some evo
        /\ Execute qo (Fetched key) ∈ evo
        /\ into qo = Orders.
Proof.
  apply (run_references_returned_keys nan_fill serial_execute commit_ok
           widget_orders 1000 101 widget_report 108).
  run.
Defined.

Lemma named_row_finds_its_product_witness :
  exists i canon,
    order_product_name padded_row = Some (strip " Widget ")
    /\ products_unique nan_fill mixed_names !! i = Some canon
    /\ canon !! "Product Name" = Some (SStr (strip " Widget "))
    /\ (forall j canon',
          products_unique nan_fill mixed_names !! j = Some canon' ->
          canon' !! "Product Name" = Some (SStr (strip " Widget ")) -> j = i)
    /\ forall key,
        ({["Widget" := 501]} : gmap string Z) !! strip " Widget " = Some key <->
        exists evs q,
          widget_product_journal 501 !! i = Some evs
          /\ Execute q (Fetched key) ∈ evs.
Proof.
  apply (named_row_finds_its_product nan_fill serial_execute commit_ok
           mixed_names 501 {["Widget" := 501]} 1%nat 502
           (widget_product_journal 501) padded_row " Widget "); [run| |run|run].
  apply (list_elem_of_lookup_2 _ 0%nat). run.
Defined.

Lemma identified_row_finds_its_customer_witness :
  exists i canon,
    source_customer_id widget_row = Ok (Some 1)
    /\ customer_rows nan_fill widget_orders !! i = Some canon
    /\ row_id canon = Some 1
    /\ (forall j canon',
          customer_rows nan_fill widget_orders !! j = Some canon' ->
          row_id canon' = Some 1 -> j = i)
    /\ forall key,
        widget_customer_map !! 1 = Some key <->
        exists evs q,
          widget_customer_journal !! i = Some evs
          /\ Execute q (Fetched key) ∈ evs.
Proof.
  apply (identified_row_finds_its_customer nan_fill serial_execute commit_ok
           widget_orders 101 widget_customer_map 2%nat 103
           widget_customer_journal widget_row 1); [decided|run|run| |run].
  apply (list_elem_of_lookup_2 _ 0%nat). run.
Defined.


Lemma run_imports_resolvable_rows_witness :
  exists key evs rest y,
    order_map (order_pass widget_report).1 !! 0%nat = Some key
    /\ (shipping_pass widget_report).2 !! 0%nat = Some evs
    /\ Execute {| into := ShippingDetails; params := IntV key :: rest |} y
       ∈ evs.
Proof.
  apply (run_imports_resolvable_rows nan_fill counting_execute commit_ok
           widget_orders 1000 101%positive widget_report 108%positive
           0%nat widget_row 1 "Widget").
  - intros d q. exists (Zpos d). split; [reflexivity|discriminate].
  - decided.
  - run.
  - run.
  - run.
  - run.
  - run.
  - run.
  - intros canon Hin _.
    assert (customer_rows nan_fill widget_orders
            = [widget_canonical 1; widget_canonical 2]) as E by run.
    rewrite E in Hin. apply elem_of_cons in Hin as [->|Hin].
    + exists (customer_insert "customer_1@placeholder.com"). run.
    + apply list_elem_of_singleton in Hin as ->.
      exists (customer_insert "customer_2@placeholder.com"). run.
  - intros canon Hin _.
    assert (products_unique nan_fill widget_orders = [widget_product]) as E
      by run.
    rewrite E in Hin. apply list_elem_of_singleton in Hin as ->.
    exists (product_insert "Widget"). run.
Defined.
